(** * Duplex Studio (khan3.0): page-sequence model and imposition planner

    A shallow embedding of [src/types.ts]: the type declarations at its top
    and the handlers of the [App] component below them (history, loading,
    range parsing, bulk deletion, blank insertion, export, drag-and-drop).
    React state is threaded explicitly: every handler is a function on
    [State]; what the browser or the PDF library supplies (the selected
    file, the outcome of loading, [Math.random], [Date.now], the outcome of
    [processPdf], the limits of the engine) is an argument of the
    handler. *)

From Stdlib Require Import Ascii String DecimalString DecimalPos DecimalN.
From Stdlib Require Import List Arith ZArith Lia Bool Permutation.
Import ListNotations.

Local Open Scope string_scope.
Local Open Scope list_scope.
Local Open Scope nat_scope.

(** ** The JavaScript library functions the handlers call *)

Module JS.

Section Arrays.
Context {A : Type}.

(** [arr.slice(-k)]: the last [k] elements (the whole array when it is
    shorter). *)
Definition slice_last (k : nat) (arr : list A) : list A :=
  skipn (length arr - k) arr.

(** [arr.slice(0, -k)]: everything but the last [k] elements. *)
Definition slice_init (k : nat) (arr : list A) : list A :=
  firstn (length arr - k) arr.

(** [arr[arr.length - 1]]; [None] is [undefined]. *)
Definition last_elem (arr : list A) : option A :=
  nth_error arr (length arr - 1).

(** [arr.splice(start, 1)] for [start >= 0]: the removed elements ([[]]
    when [start] is past the end) and the array left behind. *)
Definition splice_remove1 (start : nat) (arr : list A) : list A * list A :=
  (firstn 1 (skipn start arr), firstn start arr ++ skipn (S start) arr).

(** [arr.splice(start, 0, ...items)] for [start >= 0]; a [start] past the
    end appends, which [firstn] and [skipn] give by themselves. *)
Definition splice_insert (start : nat) (items arr : list A) : list A :=
  firstn start arr ++ items ++ skipn start arr.

(** [arr.filter((_, idx) => keep(idx))]. *)
Fixpoint filter_idx_from (keep : nat -> bool) (idx : nat) (arr : list A)
  : list A :=
  match arr with
  | [] => []
  | x :: rest =>
      if keep idx then x :: filter_idx_from keep (S idx) rest
      else filter_idx_from keep (S idx) rest
  end.

Definition filter_idx (keep : nat -> bool) (arr : list A) : list A :=
  filter_idx_from keep 0 arr.

(** [Array.from({ length: n }, (_, i) => f(i))]. *)
Definition array_from (n : nat) (f : nat -> A) : list A :=
  map f (seq 0 n).
End Arrays.

(** [ToLength] of a number that is an integer: at least 0 and at most
    2^53 - 1. *)
Definition to_length (n : Z) : Z := Z.max 0 (Z.min n (2 ^ 53 - 1)).

(** The largest length an array can have, 2^32 - 1: creating a longer one
    is a [RangeError]. *)
Definition maxArrayLength : Z := 2 ^ 32 - 1.

(** The integers that a number holds exactly and that [+ 1] and [- 1]
    step through one by one: those strictly between -2^53 and 2^53. *)
Definition isSafeInteger (n : Z) : bool :=
  (- 2 ^ 53 <? n)%Z && (n <? 2 ^ 53)%Z.

(** A [Set<number>] in insertion order, as [Array.from(set)] lists it. *)
Definition set_has (x : Z) (s : list Z) : bool := existsb (Z.eqb x) s.

(** [set.add(x)] on a set that holds at most [capacity] elements: [None]
    is the [RangeError] of adding a new element to a full set. *)
Definition set_add (capacity : positive) (x : Z) (s : list Z)
  : option (list Z) :=
  if set_has x s then Some s
  else if (Z.of_nat (length s) <? Z.pos capacity)%Z then Some (s ++ [x])
  else None.

(** Strings are sequences of code units below 256. *)

(** White space as [trim] and [parseInt] see it, among those code units:
    TAB, LF, VT, FF, CR, SP and NBSP. *)
Definition is_white_space (c : ascii) : bool :=
  let n := nat_of_ascii c in
  ((9 <=? n) && (n <=? 13)) || (n =? 32) || (n =? 160).

Fixpoint trim_start (s : string) : string :=
  match s with
  | String c rest => if is_white_space c then trim_start rest else s
  | EmptyString => EmptyString
  end.

Fixpoint trim_end (s : string) : string :=
  match s with
  | EmptyString => EmptyString
  | String c rest =>
      match trim_end rest with
      | EmptyString => if is_white_space c then EmptyString
                       else String c EmptyString
      | kept => String c kept
      end
  end.

(** [s.trim()]. *)
Definition trim (s : string) : string := trim_end (trim_start s).

(** [s.includes(c)] for a one-character [c]. *)
Fixpoint includes (c : ascii) (s : string) : bool :=
  match s with
  | EmptyString => false
  | String d rest => Ascii.eqb d c || includes c rest
  end.

(** [s.split(sep)] for a one-character separator: never empty, and one
    piece longer than the number of separators. *)
Fixpoint split (sep : ascii) (s : string) : list string :=
  match s with
  | EmptyString => [EmptyString]
  | String c rest =>
      if Ascii.eqb c sep then EmptyString :: split sep rest
      else match split sep rest with
           | piece :: pieces => String c piece :: pieces
           | [] => [String c EmptyString]
           end
  end.

(** The value of a digit in radix 36, as [parseInt] reads digits. *)
Definition digit_value (c : ascii) : option Z :=
  let n := Z.of_nat (nat_of_ascii c) in
  if ((48 <=? n) && (n <=? 57))%Z then Some (n - 48)%Z
  else if ((97 <=? n) && (n <=? 122))%Z then Some (n - 87)%Z
  else if ((65 <=? n) && (n <=? 90))%Z then Some (n - 55)%Z
  else None.

(** The longest prefix of radix-[radix] digits, as a number; [acc] is the
    value read so far, [None] while no digit was read. *)
Fixpoint parse_digits (radix : Z) (s : string) (acc : option Z) : option Z :=
  match s with
  | EmptyString => acc
  | String c rest =>
      match digit_value c with
      | Some d =>
          if (d <? radix)%Z then
            parse_digits radix rest
              (Some (match acc with
                     | None => d
                     | Some a => (a * radix + d)%Z
                     end))
          else acc
      | None => acc
      end
  end.

(** [parseInt(s)] with no radix argument; [None] is [NaN].  Leading white
    space is skipped, then an optional sign, then a [0x]/[0X] prefix selects
    radix 16, then the longest run of digits is read and what follows is
    ignored.  The result is the integer the digits denote.  The number the
    code holds is that integer when [isSafeInteger] holds of it and a
    double close to it otherwise (the nearest one, or past 20 digits an
    approximation, or [Infinity]); this keeps a number on its side of every
    safe integer, so comparing the result with
    0, with an array length or with [maxArrayLength] gives what the code
    gets, and so does subtracting 1 first.  Where the code counts with the
    result (the loop of [parseDeleteRanges]) the model asks for
    [isSafeInteger]. *)
Definition parseInt (s : string) : option Z :=
  let s1 := trim_start s in
  let '(sign, s2) :=
    match s1 with
    | String "-" rest => ((-1)%Z, rest)
    | String "+" rest => (1%Z, rest)
    | _ => (1%Z, s1)
    end in
  let '(radix, s3) :=
    match s2 with
    | String "0" (String "x" rest) => (16%Z, rest)
    | String "0" (String "X" rest) => (16%Z, rest)
    | _ => (10%Z, s2)
    end in
  option_map (Z.mul sign) (parse_digits radix s3 None).

(** A non-negative integer in a template literal: its decimal digits. *)
Definition show (n : N) : string := NilEmpty.string_of_uint (N.to_uint n).

End JS.

(** ** Data model: the declarations at the top of [types.ts] *)

Inductive PageSourceType := original | blank | external | duplicate.

Record PageItem := mkPageItem {
  id : string;
  type : PageSourceType;
  sourceFileId : option string;      (* [sourceFileId?: string] *)
  originalPageIndex : option nat;    (* [originalPageIndex?: number] *)
  label : string
}.

(** One side of a sheet: [{ left: PageItem | null; right: PageItem | null }]. *)
Record SheetSide := mkSide {
  left : option PageItem;
  right : option PageItem
}.

Record PageMap := mkPageMap {
  sheetIndex : nat;
  front : SheetSide;
  back : SheetSide
}.

Record ProcessingState := mkProcessingState {
  isProcessing : bool;
  progress : Z;
  error : option string;
  resultUrl : option string
}.

(** ** The state of the [App] component *)

(** What the handlers read of a browser [File]: its name and its MIME type
    (the [type] property). *)
Record File := mkFile {
  name : string;
  mimeType : string
}.

Inductive Position := before | after.

Record InsertConfig := mkInsertConfig {
  count : Z;
  position : Position;
  target : Z
}.

Record State := mkState {
  file : option File;
  pages : list PageItem;
  history : list (list PageItem);
  draggedIndex : option nat;
  processState : ProcessingState;
  deleteInput : string;
  insertConfig : InsertConfig
}.

(** The [useState] initial values. *)
Definition initialState : State :=
  {| file := None;
     pages := [];
     history := [];
     draggedIndex := None;
     processState := mkProcessingState false 0 None None;
     deleteInput := "";
     insertConfig := mkInsertConfig 1 after 1 |}.

(** The state setters. *)
Definition setPages (v : list PageItem) (st : State) : State :=
  mkState (file st) v (history st) (draggedIndex st) (processState st)
          (deleteInput st) (insertConfig st).

Definition setHistory (v : list (list PageItem)) (st : State) : State :=
  mkState (file st) (pages st) v (draggedIndex st) (processState st)
          (deleteInput st) (insertConfig st).

Definition setFile (v : option File) (st : State) : State :=
  mkState v (pages st) (history st) (draggedIndex st) (processState st)
          (deleteInput st) (insertConfig st).

Definition setDraggedIndex (v : option nat) (st : State) : State :=
  mkState (file st) (pages st) (history st) v (processState st)
          (deleteInput st) (insertConfig st).

Definition setProcessState (v : ProcessingState) (st : State) : State :=
  mkState (file st) (pages st) (history st) (draggedIndex st) v
          (deleteInput st) (insertConfig st).

Definition setDeleteInput (v : string) (st : State) : State :=
  mkState (file st) (pages st) (history st) (draggedIndex st)
          (processState st) v (insertConfig st).

Definition setInsertConfig (v : InsertConfig) (st : State) : State :=
  mkState (file st) (pages st) (history st) (draggedIndex st)
          (processState st) (deleteInput st) v.

(** ** History *)

(** [saveToHistory]: the current pages are pushed on the history, of which
    the last 19 entries are kept, and [newPages] become current. *)
Definition saveToHistory (newPages : list PageItem) (st : State) : State :=
  setPages newPages
    (setHistory (JS.slice_last 19 (history st) ++ [pages st]) st).

(** [undo]: nothing on an empty history ([history.length === 0], which is
    when the array has no last element); otherwise the last snapshot
    becomes current and is dropped from the history. *)
Definition undo (st : State) : State :=
  match JS.last_elem (history st) with
  | None => st
  | Some prev => setHistory (JS.slice_init 1 (history st)) (setPages prev st)
  end.

(** ** Loading a document *)

(** What [selected.arrayBuffer()], [PDFDocument.load] and [getPageCount]
    come to: a page count, or an exception. *)
Inductive LoadOutcome := Loaded (pageCount : nat) | LoadFailed.

(** The descriptor of source page [i]; [rnd] is the text of the
    [Math.random()] drawn for it. *)
Definition originalPage (rnd : nat -> string) (i : nat) : PageItem :=
  {| id := ("orig-" ++ JS.show (N.of_nat i) ++ "-" ++ rnd i)%string;
     type := original;
     sourceFileId := None;
     originalPageIndex := Some i;
     label := ("Page " ++ JS.show (N.of_nat (i + 1)))%string |}.

Definition loadErrorMessage : string :=
  "Failed to load PDF. It might be encrypted or corrupted.".

(** [handleFileChange]: [selected] is [e.target.files?.[0]]. *)
Definition handleFileChange (selected : option File) (outcome : LoadOutcome)
    (rnd : nat -> string) (st : State) : State :=
  match selected with
  | None => st
  | Some f =>
      if (mimeType f =? "application/pdf")%string then
        match outcome with
        | Loaded pageCount =>
            let initialPages := JS.array_from pageCount (originalPage rnd) in
            setProcessState (mkProcessingState false 0 None None)
              (setHistory [] (setPages initialPages (setFile (Some f) st)))
        | LoadFailed =>
            let prev := processState st in
            setProcessState
              (mkProcessingState (isProcessing prev) (progress prev)
                 (Some loadErrorMessage) (resultUrl prev)) st
        end
      else st
  end.

(** ** The limits of the engine *)

(** What the JavaScript engine the component runs on allows: the number of
    elements a [Set] can hold (2^24 in V8) and the number of arguments a
    call can spread (bounded by its stack).  Both are at least 1. *)
Record Engine := mkEngine {
  setCapacity : positive;
  spreadLimit : positive
}.

(** ** Bulk deletion *)

(** The [for] loop of [parseDeleteRanges]: [i - 1] is added for [i] from
    [lo] to [hi].  [None] is where the model gives no result: an end of the
    range is no safe integer (the loop then counts in doubles, which [i++]
    need not advance, and it need not end), or the set gets full (the code
    throws a [RangeError]), as it does for a range of more numbers than it
    can hold. *)
Definition rangeStep (e : Engine) (lo : Z) (acc : option (list Z))
    (k : nat) : option (list Z) :=
  match acc with
  | Some s => JS.set_add (setCapacity e) (lo + Z.of_nat k - 1)%Z s
  | None => None
  end.

Definition addRange (e : Engine) (lo hi : Z) (indices : list Z)
  : option (list Z) :=
  if negb (JS.isSafeInteger lo && JS.isSafeInteger hi) then None
  else if (Z.pos (setCapacity e) <? hi - lo + 1)%Z then None
  else
    fold_left (rangeStep e lo) (seq 0 (Z.to_nat (hi - lo + 1)))
              (Some indices).

(** The callback of [parts.forEach].  For a plain number that is no safe
    integer the code adds the double nearest to it, less 1, where the model
    adds the integer less 1: neither is an index of an array, and the
    filter of [parseDeleteRanges] drops it. *)
Definition addPart (e : Engine) (indices : list Z) (part : string)
  : option (list Z) :=
  if JS.includes "-" part then
    match map JS.parseInt (JS.split "-" part) with
    | Some start :: Some end_ :: _ =>
        addRange e (Z.min start end_) (Z.max start end_) indices
    | _ => Some indices
    end
  else
    match JS.parseInt part with
    | Some n => JS.set_add (setCapacity e) (n - 1)%Z indices
    | None => Some indices
    end.

(** [forEach] goes on to the next part when the callback returns. *)
Definition partStep (e : Engine) (acc : option (list Z)) (part : string)
  : option (list Z) :=
  match acc with
  | Some s => addPart e s part
  | None => None
  end.

(** [parseDeleteRanges]; [pagesLength] is the [pages.length] it closes
    over.  [None]: the call gives no result (see [addRange]). *)
Definition parseDeleteRanges (e : Engine) (input : string)
    (pagesLength : nat) : option (list Z) :=
  let parts := map JS.trim (JS.split "," input) in
  let indices := fold_left (partStep e) parts (Some []) in
  match indices with
  | Some found =>
      Some (filter (fun i => (0 <=? i)%Z && (i <? Z.of_nat pagesLength)%Z)
                   found)
  | None => None
  end.

(** [handleBulkDelete]; [None]: the model gives no state, because
    [parseDeleteRanges] gives no result (where the code throws, the state
    stays as it is; where the loop does not end, no state follows). *)
Definition handleBulkDelete (e : Engine) (st : State) : option State :=
  match parseDeleteRanges e (deleteInput st) (length (pages st)) with
  | None => None
  | Some [] => Some st
  | Some toDelete =>
      let newPages :=
        JS.filter_idx (fun idx => negb (JS.set_has (Z.of_nat idx) toDelete))
                      (pages st) in
      Some (setDeleteInput "" (saveToHistory newPages st))
  end.

(** The [onClick] of a thumbnail's delete button. *)
Definition onDeleteClick (pageId : string) (st : State) : State :=
  saveToHistory
    (filter (fun p => negb (id p =? pageId)%string) (pages st)) st.

(** ** Inserting blanks *)

(** The [onChange] of the Count and Target Page inputs:
    [parseInt(e.target.value) || 1], where [NaN] and [0] are the falsy
    numbers.  (The form holds the integer read, for which the code has a
    double; [handleInsertBlank] only compares it, see [JS.parseInt].) *)
Definition parseIntOr1 (value : string) : Z :=
  match JS.parseInt value with
  | Some n => if (n =? 0)%Z then 1%Z else n
  | None => 1%Z
  end.

Definition onCountChange (value : string) (st : State) : State :=
  let c := insertConfig st in
  setInsertConfig (mkInsertConfig (parseIntOr1 value) (position c) (target c))
                  st.

Definition onTargetChange (value : string) (st : State) : State :=
  let c := insertConfig st in
  setInsertConfig (mkInsertConfig (count c) (position c) (parseIntOr1 value))
                  st.

Definition onPositionClick (p : Position) (st : State) : State :=
  let c := insertConfig st in
  setInsertConfig (mkInsertConfig (count c) p (target c)) st.

(** The [i]-th new blank; [now i] is the [Date.now()] read for it. *)
Definition blankPage (now : nat -> N) (i : nat) : PageItem :=
  {| id := ("blank-" ++ JS.show (now i) ++ "-" ++ JS.show (N.of_nat i))%string;
     type := blank;
     sourceFileId := None;
     originalPageIndex := None;
     label := "Blank Page" |}.

(** [Math.max(0, Math.min(pages.length, target - (before ? 1 : 0)))]. *)
Definition insertTargetIdx (pagesLength : nat) (c : InsertConfig) : nat :=
  Z.to_nat
    (Z.max 0
       (Z.min (Z.of_nat pagesLength)
              (target c - match position c with
                          | before => 1
                          | after => 0
                          end))).

(** Whether building and inserting the blanks fails: [Array.from] throws
    a [RangeError] for a length above [maxArrayLength], and spreading the
    blanks into [splice] throws one for more blanks than a call can
    spread. *)
Definition insertFails (e : Engine) (c : InsertConfig) : bool :=
  let len := JS.to_length (count c) in
  (JS.maxArrayLength <? len)%Z || (Z.pos (spreadLimit e) <? len)%Z.

(** [handleInsertBlank]; where it throws it does so before
    [saveToHistory], and the state stays as it is. *)
Definition handleInsertBlank (e : Engine) (now : nat -> N) (st : State)
  : State :=
  let c := insertConfig st in
  if insertFails e c then st
  else
    let targetIdx := insertTargetIdx (length (pages st)) c in
    let newBlanks :=
      JS.array_from (Z.to_nat (JS.to_length (count c))) (blankPage now) in
    let newPages := JS.splice_insert targetIdx newBlanks (pages st) in
    saveToHistory newPages st.

(** ** Export *)

(** What [processPdf] comes to: a URL; an exception whose value has
    properties, [message] being [None] when it has no such property; or an
    exception whose value is [null] or [undefined]. *)
Inductive ProcessOutcome :=
| Resolved (url : string)
| Rejected (message : option string)
| RejectedNullish.

Definition unknownErrorMessage : string :=
  "Unknown error occurred during PDF generation.".

(** [err.message || '...']: the empty string is falsy too. *)
Definition errorText (message : option string) : string :=
  match message with
  | Some m => if (m =? "")%string then unknownErrorMessage else m
  | None => unknownErrorMessage
  end.

(** The progress callback handed to [processPdf]. *)
Definition onProgress (p : Z) (st : State) : State :=
  let prev := processState st in
  setProcessState
    (mkProcessingState (isProcessing prev) p (error prev) (resultUrl prev)) st.

(** The states [handleProcess] goes through, oldest first: after the
    initial [setProcessState], after each progress report of [processPdf],
    and after its outcome.  Without a file there is none.  When the value
    thrown is [null] or [undefined], reading [err.message] throws inside
    the [catch] and no state follows the last report.  (Revoking the
    previous object URL does not touch the state.) *)
Definition handleProcessTrace (reports : list Z) (outcome : ProcessOutcome)
    (st : State) : list State :=
  match file st with
  | None => []
  | Some _ =>
      let started :=
        setProcessState (mkProcessingState true 0 None None) st in
      let running :=
        fold_left (fun acc p => acc ++ [onProgress p (last acc started)])
                  reports [started] in
      match outcome with
      | Resolved url =>
          running
          ++ [setProcessState (mkProcessingState false 100 None (Some url))
                (last running started)]
      | Rejected message =>
          running
          ++ [setProcessState
                (mkProcessingState false 0 (Some (errorText message)) None)
                (last running started)]
      | RejectedNullish => running
      end
  end.

(** The state [handleProcess] leaves. *)
Definition handleProcess (reports : list Z) (outcome : ProcessOutcome)
    (st : State) : State :=
  last (handleProcessTrace reports outcome st) st.

(** ** Drag and drop *)

Definition onDragStart (index : nat) (st : State) : State :=
  setDraggedIndex (Some index) st.

(** The two [splice] calls of [onDrop] on a copy of the pages.  [None]
    stands for the array that is no [PageItem[]]: with [draggedIndex] past
    the end the first [splice] removes nothing, [movedItem] is [undefined],
    and the second [splice] stores it. *)
Definition movePage {A : Type} (draggedIndex targetIndex : nat)
    (pages : list A) : option (list A) :=
  let '(removed, updatedPages) := JS.splice_remove1 draggedIndex pages in
  match removed with
  | movedItem :: _ => Some (JS.splice_insert targetIndex [movedItem] updatedPages)
  | [] => None
  end.

Definition onDrop (targetIndex : nat) (st : State) : option State :=
  match draggedIndex st with
  | None => Some st
  | Some dragged =>
      if dragged =? targetIndex then Some st
      else
        match movePage dragged targetIndex (pages st) with
        | Some updatedPages =>
            Some (setDraggedIndex None (saveToHistory updatedPages st))
        | None => None
        end
  end.

(** ** The imposition planner *)

(** Modelled from the spec: [calculateImposition] of
    [services/pdfService], the planner the spec calls [planImposition]; the
    component imports it and its source is not part of [types.ts].  The
    sequence is processed in blocks of 4 consecutive descriptors; block [b]
    gives sheet [b]; the descriptors of a block go to front-left,
    front-right, back-left, back-right in this order, and the quadrants the
    sequence does not reach are empty. *)
Fixpoint planFrom (b : nat) (seq : list PageItem) : list PageMap :=
  match seq with
  | [] => []
  | p1 :: [] =>
      [mkPageMap b (mkSide (Some p1) None) (mkSide None None)]
  | p1 :: p2 :: [] =>
      [mkPageMap b (mkSide (Some p1) (Some p2)) (mkSide None None)]
  | p1 :: p2 :: p3 :: [] =>
      [mkPageMap b (mkSide (Some p1) (Some p2)) (mkSide (Some p3) None)]
  | p1 :: p2 :: p3 :: p4 :: rest =>
      mkPageMap b (mkSide (Some p1) (Some p2)) (mkSide (Some p3) (Some p4))
      :: planFrom (S b) rest
  end.

Definition planImposition (seq : list PageItem) : list PageMap :=
  planFrom 0 seq.

(** [impositionPreview]: the planner on the current pages. *)
Definition impositionPreview (st : State) : list PageMap :=
  planImposition (pages st).

(** The quadrants of a sheet in traversal order. *)
Definition quadrants (sheet : PageMap) : list (option PageItem) :=
  [left (front sheet); right (front sheet);
   left (back sheet); right (back sheet)].

(** The present ones among a list of quadrants. *)
Fixpoint discardEmpty (qs : list (option PageItem)) : list PageItem :=
  match qs with
  | [] => []
  | Some p :: rest => p :: discardEmpty rest
  | None :: rest => discardEmpty rest
  end.

(** Reading a plan: sheets in the order of the list, quadrants in traversal
    order, empty quadrants discarded. *)
Definition readSheets (sheets : list PageMap) : list PageItem :=
  discardEmpty (flat_map quadrants sheets).

(** ** The component as a transition system *)

(** The user actions and completions the handlers answer to. *)
Inductive Event :=
| FileChange (selected : option File) (outcome : LoadOutcome)
             (rnd : nat -> string)
| UndoClick
| DeleteInputChange (value : string)
| BulkDelete
| DeleteClick (pageId : string)
| CountChange (value : string)
| TargetChange (value : string)
| PositionClick (p : Position)
| InsertBlank (now : nat -> N)
| Process (reports : list Z) (outcome : ProcessOutcome)
| DragStart (index : nat)
| DropOn (targetIndex : nat).

Definition step (e : Engine) (ev : Event) (st : State) : option State :=
  match ev with
  | FileChange selected outcome rnd =>
      Some (handleFileChange selected outcome rnd st)
  | UndoClick => Some (undo st)
  | DeleteInputChange value => Some (setDeleteInput value st)
  | BulkDelete => handleBulkDelete e st
  | DeleteClick pageId => Some (onDeleteClick pageId st)
  | CountChange value => Some (onCountChange value st)
  | TargetChange value => Some (onTargetChange value st)
  | PositionClick p => Some (onPositionClick p st)
  | InsertBlank now => Some (handleInsertBlank e now st)
  | Process reports outcome => Some (handleProcess reports outcome st)
  | DragStart index => Some (onDragStart index st)
  | DropOn targetIndex => onDrop targetIndex st
  end.

Fixpoint run (e : Engine) (events : list Event) (st : State)
  : option State :=
  match events with
  | [] => Some st
  | ev :: rest =>
      match step e ev st with
      | Some st' => run e rest st'
      | None => None
      end
  end.

(** ** The kind invariant, as the data model words it and as the handlers
    keep it *)

Definition isSome {A : Type} (o : option A) : bool :=
  match o with Some _ => true | None => false end.


(** As the handlers build descriptors: an [original] carries its page index
    and no [sourceFileId], a [blank] carries neither, and no other kind is
    built. *)
Definition builtKind (p : PageItem) : bool :=
  match type p with
  | original => negb (isSome (sourceFileId p)) && isSome (originalPageIndex p)
  | blank => negb (isSome (sourceFileId p)) && negb (isSome (originalPageIndex p))
  | external | duplicate => false
  end.

(** ** Concrete inputs used below *)

Definition pdfFile : File := mkFile "book.pdf" "application/pdf".

Definition rnd0 : nat -> string := fun _ => "0.5".

Definition now0 : nat -> N := fun _ => 1700000000000%N.

(** An engine with the [Set] capacity of V8 and room for 65535 spread
    arguments. *)
Definition engine0 : Engine := mkEngine 16777216 65535.

(** The state after loading a document of [n] pages into the initial
    state. *)
Definition loadedState (n : nat) : State :=
  handleFileChange (Some pdfFile) (Loaded n) rnd0 initialState.

(** ** Predicates on states *)

(** Every descriptor of a sequence is of a kind the handlers build. *)
Definition pagesBuilt (l : list PageItem) : Prop :=
  Forall (fun p => builtKind p = true) l.

Definition stateBuilt (st : State) : Prop :=
  pagesBuilt (pages st) /\ Forall pagesBuilt (history st).

(** The states of an export differ from the one it started in by their
    process state only. *)
Definition sameDocument (st s : State) : Prop :=
  pages s = pages st /\ history s = history st /\ file s = file st.

(** ** What a thumbnail and a preview box show *)

(** The text of a thumbnail of the page timeline:
    [page.type === 'blank' ? 'B' :
     (page.originalPageIndex !== undefined ? page.originalPageIndex + 1 : 'X')],
    a number being rendered by its decimal digits. *)
Definition thumbnailText (page : PageItem) : string :=
  match type page with
  | blank => "B"
  | _ =>
      match originalPageIndex page with
      | Some i => JS.show (N.of_nat (i + 1))
      | None => "X"
      end
  end.

(** The text of a [PreviewBox]; [item] is [null] for an empty quadrant, and
    then [item?.type] and [item?.originalPageIndex] are [undefined]. *)
Definition previewText (item : option PageItem) : string :=
  match item with
  | Some page => thumbnailText page
  | None => "X"
  end.

(** ** The tabs *)

Inductive AppMode := ORGANIZER | IMPOSITION | EXPORT.

(** The part of the component state the tab bar depends on. *)
Record ViewState := mkViewState {
  activeMode : AppMode;
  impositionEnabled : bool
}.

Definition initialView : ViewState := mkViewState ORGANIZER true.

Definition appModeEqb (a b : AppMode) : bool :=
  match a, b with
  | ORGANIZER, ORGANIZER | IMPOSITION, IMPOSITION | EXPORT, EXPORT => true
  | _, _ => false
  end.

(** [tabs]: the mode and the label of each tab that is rendered. *)
Definition tabs (v : ViewState) : list (AppMode * string) :=
  [(ORGANIZER, "1. Organize")]
  ++ (if impositionEnabled v then [(IMPOSITION, "2. Duplex Mode")] else [])
  ++ [(EXPORT, if impositionEnabled v then "3. Export" else "2. Export")].

(** The effect on [[impositionEnabled, activeMode]]: with imposition
    disabled the Duplex tab is left for the organizer. *)
Definition modeEffect (v : ViewState) : ViewState :=
  if negb (impositionEnabled v) && appModeEqb (activeMode v) IMPOSITION
  then mkViewState ORGANIZER (impositionEnabled v)
  else v.

(** The [onClick] of the [index]-th rendered tab; there is no button for an
    index past the tabs. *)
Definition onTabClick (index : nat) (v : ViewState) : ViewState :=
  match nth_error (tabs v) index with
  | Some (mode, _) => mkViewState mode (impositionEnabled v)
  | None => v
  end.

(** The [onClick] of the Print Mode switch. *)
Definition onToggleImposition (v : ViewState) : ViewState :=
  mkViewState (activeMode v) (negb (impositionEnabled v)).

Inductive ViewEvent := TabClick (index : nat) | ToggleImposition.

(** A click, then the effect that runs after the render it causes. *)
Definition viewStep (ev : ViewEvent) (v : ViewState) : ViewState :=
  modeEffect
    match ev with
    | TabClick index => onTabClick index v
    | ToggleImposition => onToggleImposition v
    end.

Definition runView (events : list ViewEvent) (v : ViewState) : ViewState :=
  fold_left (fun acc ev => viewStep ev acc) events v.

(** ** Notions the properties are stated with *)

(** Several mutations in a row, each through [saveToHistory]. *)
Definition saveAll (snapshots : list (list PageItem)) (st : State) : State :=
  fold_left (fun acc newPages => saveToHistory newPages acc) snapshots st.

(** What one trimmed part of a range text selects, as [addPart] reads it:
    the 1-based numbers between the two ends of a hyphenated part, or the
    number of a plain part; an end or a number that [parseInt] does not
    read selects nothing. *)
Definition partSelects (part : string) (i : Z) : Prop :=
  if JS.includes "-" part then
    match map JS.parseInt (JS.split "-" part) with
    | Some start :: Some end_ :: _ =>
        (Z.min start end_ <= i + 1 <= Z.max start end_)%Z
    | _ => False
    end
  else JS.parseInt part = Some (i + 1)%Z.

(** What is rendered of [processState.error]: the error box is part of the
    Export tab, which is part of [<main>], rendered when a file is loaded;
    an empty message is falsy and renders nothing. *)
Definition errorPanel (mode : AppMode) (st : State) : option string :=
  match file st, mode, error (processState st) with
  | Some _, EXPORT, Some message =>
      if (message =? "")%string then None else Some message
  | _, _, _ => None
  end.

(** The characters of a string. *)
Fixpoint chars (s : string) : list ascii :=
  match s with
  | EmptyString => []
  | String c rest => c :: chars rest
  end.

Definition isDigit (c : ascii) : bool :=
  let n := nat_of_ascii c in (48 <=? n) && (n <=? 57).

(** The array without its element at [index]. *)
Definition removeAt {A : Type} (index : nat) (arr : list A) : list A :=
  firstn index arr ++ skipn (S index) arr.

(** The pages that are not blank, in order. *)
Definition contentPages (l : list PageItem) : list PageItem :=
  filter (fun p => match type p with blank => false | _ => true end) l.

(** * Properties *)

(** ** The library functions on examples *)

Example parseInt_examples :
  JS.parseInt " 15px" = Some 15%Z /\ JS.parseInt "-3" = Some (-3)%Z /\
  JS.parseInt "0x1f" = Some 31%Z /\ JS.parseInt "" = None /\
  JS.parseInt "abc" = None /\ JS.show 120%N = "120" /\ JS.show 0%N = "0" /\
  JS.split "," "1, 3,,10-15" = ["1"; " 3"; ""; "10-15"] /\
  JS.trim "  a b  " = "a b".
Proof. repeat split; reflexivity. Qed.


(** ** The planner *)

Section Planner.

(** Induction on a list four elements at a time, as [planFrom] recurses. *)
Lemma list_ind4 (A : Type) (P : list A -> Prop) :
  P [] ->
  (forall a, P [a]) ->
  (forall a b, P [a; b]) ->
  (forall a b c, P [a; b; c]) ->
  (forall a b c d rest, P rest -> P (a :: b :: c :: d :: rest)) ->
  forall l, P l.
Proof.
  intros H0 H1 H2 H3 H4.
  fix IH 1.
  intros [|a [|b [|c [|d rest]]]].
  - exact H0.
  - exact (H1 a).
  - exact (H2 a b).
  - exact (H3 a b c).
  - exact (H4 a b c d rest (IH rest)).
Qed.

Lemma planFrom_length b l :
  length (planFrom b l) = (length l + 3) / 4.
Proof.
  revert b. induction l as [|p1|p1 p2|p1 p2 p3|p1 p2 p3 p4 rest IH]
    using list_ind4; intros b; try reflexivity.
  cbn [planFrom length]. rewrite IH.
  replace (S (S (S (S (length rest)))) + 3) with (length rest + 3 + 1 * 4)
    by lia.
  rewrite Nat.div_add by lia. lia.
Qed.

Lemma planFrom_sheetIndex b l :
  map sheetIndex (planFrom b l) = seq b (length (planFrom b l)).
Proof.
  revert b. induction l as [|p1|p1 p2|p1 p2 p3|p1 p2 p3 p4 rest IH]
    using list_ind4; intros b; try reflexivity.
  cbn [planFrom length map seq sheetIndex]. now rewrite IH.
Qed.

(** The quadrants of a plan, in traversal order: the descriptors, then
    fewer than 4 empty quadrants to fill the last sheet. *)
Lemma planFrom_quadrants b l :
  flat_map quadrants (planFrom b l) =
  map Some l ++ repeat None (4 * length (planFrom b l) - length l).
Proof.
  revert b. induction l as [|p1|p1 p2|p1 p2 p3|p1 p2 p3 p4 rest IH]
    using list_ind4; intros b; try reflexivity.
  cbn [planFrom flat_map quadrants front back left right app map length].
  rewrite IH.
  replace (4 * S (length (planFrom (S b) rest))
           - S (S (S (S (length rest)))))
    with (4 * length (planFrom (S b) rest) - length rest) by lia.
  reflexivity.
Qed.

Lemma discardEmpty_padded l k :
  discardEmpty (map Some l ++ repeat None k) = l.
Proof.
  induction l as [|p l IH]; cbn.
  - induction k; cbn; auto.
  - now rewrite IH.
Qed.

Lemma planFrom_nth b l k :
  nth_error (planFrom b l) k =
  if 4 * k <? length l then
    Some (mkPageMap (b + k)
            (mkSide (nth_error l (4 * k)) (nth_error l (4 * k + 1)))
            (mkSide (nth_error l (4 * k + 2)) (nth_error l (4 * k + 3))))
  else None.
Proof.
  revert b k. induction l as [|p1|p1 p2|p1 p2 p3|p1 p2 p3 p4 rest IH]
    using list_ind4; intros b k.
  - destruct k; reflexivity.
  - destruct k as [|k]; [now rewrite Nat.add_0_r|].
    cbn [planFrom nth_error length].
    destruct (Nat.ltb_spec (4 * S k) 1); [lia|]. now destruct k.
  - destruct k as [|k]; [now rewrite Nat.add_0_r|].
    cbn [planFrom nth_error length].
    destruct (Nat.ltb_spec (4 * S k) 2); [lia|]. now destruct k.
  - destruct k as [|k]; [now rewrite Nat.add_0_r|].
    cbn [planFrom nth_error length].
    destruct (Nat.ltb_spec (4 * S k) 3); [lia|]. now destruct k.
  - destruct k as [|k]; [now rewrite Nat.add_0_r|].
    cbn [planFrom nth_error length]. rewrite IH.
    replace (4 * S k) with (S (S (S (S (4 * k))))) by lia.
    replace (S b + k) with (b + S k) by lia.
    replace (S (S (S (S (4 * k)))) + 1) with (S (S (S (S (4 * k + 1)))))
      by lia.
    replace (S (S (S (S (4 * k)))) + 2) with (S (S (S (S (4 * k + 2)))))
      by lia.
    replace (S (S (S (S (4 * k)))) + 3) with (S (S (S (S (4 * k + 3)))))
      by lia.
    cbn [nth_error].
    destruct (Nat.ltb_spec (4 * k) (length rest));
      destruct (Nat.ltb_spec (S (S (S (S (4 * k)))))
                  (S (S (S (S (length rest)))))); try lia; reflexivity.
Qed.

End Planner.

(** C1. Reading the sheets of [planImposition seq] in traversal order
    (sheets by ascending [sheetIndex], which is the order of the list, each
    sheet front-left, front-right, back-left, back-right) and discarding
    the empty quadrants gives [seq] back, for a sequence of any length.
    The empty quadrants are the last ones of the last sheet: the quadrants
    are the descriptors followed by fewer than 4 empty ones, and by none
    when the length is a multiple of 4. *)
Theorem planImposition_read_back (seq : list PageItem) :
  let sheets := planImposition seq in
  let padding := 4 * length sheets - length seq in
  readSheets sheets = seq /\
  map sheetIndex sheets = List.seq 0 (length sheets) /\
  flat_map quadrants sheets = map Some seq ++ repeat None padding /\
  padding = (4 - length seq mod 4) mod 4.
Proof.
  cbn zeta. unfold planImposition, readSheets.
  rewrite planFrom_quadrants, discardEmpty_padded.
  repeat split; auto using planFrom_sheetIndex.
  rewrite planFrom_length.
  pose proof (Nat.div_mod_eq (length seq) 4) as E.
  pose proof (Nat.mod_upper_bound (length seq) 4 ltac:(lia)) as B.
  destruct (Nat.eq_dec (length seq mod 4) 0) as [Z0|NZ].
  - replace (length seq + 3) with (3 + (length seq / 4) * 4) by lia.
    rewrite Nat.div_add by lia.
    rewrite (Nat.div_small 3 4) by lia.
    rewrite Z0. change ((4 - 0) mod 4) with 0. lia.
  - replace (length seq + 3)
      with ((length seq mod 4 - 1) + (length seq / 4 + 1) * 4) by lia.
    rewrite Nat.div_add by lia.
    rewrite (Nat.div_small (length seq mod 4 - 1)) by lia.
    rewrite (Nat.mod_small (4 - length seq mod 4)) by lia. lia.
Qed.

(** C2. Block [b] of 4 consecutive descriptors gives sheet [b]: the sheet
    at position [b] has [sheetIndex] [b] and holds descriptors [4b],
    [4b+1], [4b+2], [4b+3] at front-left, front-right, back-left,
    back-right, a quadrant being empty where the sequence has run out
    ([nth_error] is [None] there); there are as many sheets as blocks.  For
    10 pages this is 3 sheets, sheet 0 holding pages 1 to 4 and sheet 2
    pages 9 and 10 on its front and nothing on its back. *)
Theorem planImposition_blocks :
  (forall (seq : list PageItem) (b : nat),
      length (planImposition seq) = (length seq + 3) / 4 /\
      nth_error (planImposition seq) b =
      if b <? length (planImposition seq) then
        Some (mkPageMap b
                (mkSide (nth_error seq (4 * b)) (nth_error seq (4 * b + 1)))
                (mkSide (nth_error seq (4 * b + 2))
                        (nth_error seq (4 * b + 3))))
      else None) /\
  (forall p1 p2 p3 p4 p5 p6 p7 p8 p9 p10 : PageItem,
      planImposition [p1; p2; p3; p4; p5; p6; p7; p8; p9; p10] =
      [ mkPageMap 0 (mkSide (Some p1) (Some p2)) (mkSide (Some p3) (Some p4));
        mkPageMap 1 (mkSide (Some p5) (Some p6)) (mkSide (Some p7) (Some p8));
        mkPageMap 2 (mkSide (Some p9) (Some p10)) (mkSide None None) ]).
Proof.
  split; [|reflexivity].
  intros seq b. unfold planImposition.
  split; [apply planFrom_length|].
  rewrite planFrom_nth, planFrom_length. cbn [Nat.add].
  assert (E : (4 * b <? length seq) = (b <? (length seq + 3) / 4)).
  { pose proof (Nat.div_mod_eq (length seq + 3) 4) as E.
    pose proof (Nat.mod_upper_bound (length seq + 3) 4 ltac:(lia)) as B.
    destruct (Nat.ltb_spec (4 * b) (length seq));
      destruct (Nat.ltb_spec b ((length seq + 3) / 4)); auto; nia. }
  now rewrite E.
Qed.

(** ** History and undo *)

Section History.

Lemma last_elem_snoc (A : Type) (l : list A) (x : A) :
  JS.last_elem (l ++ [x]) = Some x.
Proof.
  unfold JS.last_elem. rewrite length_app, Nat.add_1_r, Nat.sub_1_r.
  cbn [pred]. rewrite nth_error_app2 by lia. now rewrite Nat.sub_diag.
Qed.

Lemma slice_init_snoc (A : Type) (l : list A) (x : A) :
  JS.slice_init 1 (l ++ [x]) = l.
Proof.
  unfold JS.slice_init. rewrite length_app, Nat.add_1_r, Nat.sub_1_r.
  cbn [pred]. rewrite firstn_app, Nat.sub_diag, firstn_all.
  cbn. apply app_nil_r.
Qed.

Lemma last_elem_none (A : Type) (l : list A) :
  JS.last_elem l = None <-> l = [].
Proof.
  unfold JS.last_elem. split; [|now intros ->].
  destruct l as [|x l]; [reflexivity|]. intros H.
  apply nth_error_None in H. cbn [length] in H. lia.
Qed.

Lemma slice_last_length (A : Type) (k : nat) (l : list A) :
  length (JS.slice_last k l) <= k.
Proof. unfold JS.slice_last. rewrite length_skipn. lia. Qed.

Lemma undo_saveToHistory newPages st :
  undo (saveToHistory newPages st) =
  setHistory (JS.slice_last 19 (history st)) st.
Proof.
  unfold undo, saveToHistory. cbn [history setPages setHistory].
  rewrite last_elem_snoc, slice_init_snoc. now destruct st.
Qed.

Lemma undo_empty st : history st = [] -> undo st = st.
Proof. unfold undo. now intros ->. Qed.

Lemma undo_history_length st :
  length (history (undo st)) = length (history st) - 1.
Proof.
  unfold undo. destruct (JS.last_elem (history st)) as [prev|] eqn:E.
  - cbn [history setHistory]. unfold JS.slice_init. rewrite length_firstn. lia.
  - apply last_elem_none in E. now rewrite E.
Qed.

Lemma iter_undo_history_length n st :
  length (history (Nat.iter n undo st)) = length (history st) - n.
Proof.
  induction n as [|n IH]; cbn [Nat.iter nat_rect].
  - lia.
  - rewrite undo_history_length. unfold Nat.iter in IH. rewrite IH. lia.
Qed.

Lemma undo_pages_setDeleteInput v st :
  pages (undo (setDeleteInput v st)) = pages (undo st).
Proof.
  unfold undo. cbn [history setDeleteInput].
  now destruct (JS.last_elem (history st)).
Qed.

Lemma undo_pages_setDraggedIndex v st :
  pages (undo (setDraggedIndex v st)) = pages (undo st).
Proof.
  unfold undo. cbn [history setDraggedIndex].
  now destruct (JS.last_elem (history st)).
Qed.

End History.

(** C8. [undo] right after one mutation makes the pages the ones from just
    before it: every mutating handler goes through [saveToHistory], which
    pushes the current pages as the newest snapshot, and [undo] pops it.
    This covers blank insertion (where it does not fail; where it fails
    nothing is mutated and the state stays as it is), single deletion, bulk
    deletion and drop (whenever they change anything).  The history never
    holds more than 20 snapshots.  On an empty history [undo] changes
    nothing, so undoing more often than there are snapshots ends in a state
    that further [undo]s leave alone; [undo] is a total function, it has no
    failing case. *)
Theorem undo_restores_prior_snapshot :
  (forall newPages st, pages (undo (saveToHistory newPages st)) = pages st) /\
  (forall newPages st,
      history (saveToHistory newPages st) =
      JS.slice_last 19 (history st) ++ [pages st]) /\
  (forall e now st,
      if insertFails e (insertConfig st)
      then handleInsertBlank e now st = st
      else pages (undo (handleInsertBlank e now st)) = pages st) /\
  (forall pageId st, pages (undo (onDeleteClick pageId st)) = pages st) /\
  (forall e st,
      match handleBulkDelete e st with
      | Some st' => st' = st \/ pages (undo st') = pages st
      | None => True
      end) /\
  (forall targetIndex st,
      match onDrop targetIndex st with
      | Some st' => st' = st \/ pages (undo st') = pages st
      | None => True
      end) /\
  (forall newPages st, length (history (saveToHistory newPages st)) <= 20) /\
  (forall st, undo (setHistory [] st) = setHistory [] st) /\
  (forall st extra,
      let s := Nat.iter (length (history st) + extra) undo st in
      history s = [] /\ undo s = s).
Proof.
  assert (U : forall newPages st,
             pages (undo (saveToHistory newPages st)) = pages st).
  { intros. now rewrite undo_saveToHistory. }
  split; [exact U|].
  split; [reflexivity|].
  split.
  { intros e now st. unfold handleInsertBlank.
    destruct (insertFails e (insertConfig st)); [reflexivity|apply U]. }
  split; [intros; apply U|].
  split.
  { intros e st. unfold handleBulkDelete.
    destruct (parseDeleteRanges _ _ _) as [[|i toDelete]|];
      [now left|right|exact I].
    rewrite undo_pages_setDeleteInput. apply U. }
  split.
  { intros t st. unfold onDrop.
    destruct (draggedIndex st) as [d|]; [|now left].
    destruct (d =? t); [now left|].
    destruct (movePage d t (pages st)) as [l|]; [right|exact I].
    rewrite undo_pages_setDraggedIndex. apply U. }
  split.
  { intros. unfold saveToHistory. cbn [history setPages setHistory].
    rewrite length_app. pose proof (slice_last_length _ 19 (history st)).
    cbn [length]. lia. }
  split; [intros; now apply undo_empty|].
  intros st extra. cbn zeta.
  assert (E : history (Nat.iter (length (history st) + extra) undo st) = []).
  { apply length_zero_iff_nil. rewrite iter_undo_history_length. lia. }
  split; [exact E|now apply undo_empty].
Qed.

(** ** Loading *)

(** What a failed load leaves: the state it found, with the message as
    the process error. *)
Lemma handleFileChange_failed f rnd st :
  mimeType f = "application/pdf" ->
  handleFileChange (Some f) LoadFailed rnd st =
  setProcessState
    (mkProcessingState (isProcessing (processState st))
       (progress (processState st)) (Some loadErrorMessage)
       (resultUrl (processState st))) st.
Proof. intros E. unfold handleFileChange. now rewrite E. Qed.

(** The [catch] does not touch the pages: a load that fails after a
    one-page document was loaded leaves that page in the sequence.  (Both
    files are selected while no document is loaded; the first load
    completes, then the second one fails.) *)
Lemma failed_load_keeps_sequence :
  pages (handleFileChange (Some pdfFile) LoadFailed rnd0 (loadedState 1))
  = [originalPage rnd0 0] /\
  pages (handleFileChange (Some pdfFile) LoadFailed rnd0 (loadedState 1))
  <> [].
Proof. split; [reflexivity|discriminate]. Qed.

(** When loading a PDF fails, the message "Failed to load PDF. It might be
    encrypted or corrupted." becomes the process error and nothing else
    changes: the pages, the history and the file are the ones the [catch]
    finds.  So the sequence is empty after a failed load exactly when it
    was empty then. *)
Theorem failed_load_sets_error_only (f : File) (rnd : nat -> string)
    (st : State) :
  mimeType f = "application/pdf" ->
  let st' := handleFileChange (Some f) LoadFailed rnd st in
  error (processState st') = Some loadErrorMessage /\
  pages st' = pages st /\
  history st' = history st /\
  file st' = file st /\
  resultUrl (processState st') = resultUrl (processState st) /\
  (pages st' = [] <-> pages st = []).
Proof.
  intros E. cbn zeta. rewrite (handleFileChange_failed f rnd st E).
  cbn. tauto.
Qed.

Lemma failed_load_sets_error_only_witness :
  error (processState
           (handleFileChange (Some pdfFile) LoadFailed rnd0 initialState))
  = Some loadErrorMessage /\
  pages (handleFileChange (Some pdfFile) LoadFailed rnd0 initialState) = [].
Proof.
  pose proof (failed_load_sets_error_only pdfFile rnd0 initialState
                eq_refl) as H.
  cbn zeta in H. destruct H as (He & Hp & _). split; [exact He|].
  rewrite Hp. reflexivity.
Defined.

(** With no file loaded the error box is not rendered, whatever tab is
    active. *)
Lemma errorPanel_needs_file mode st : file st = None -> errorPanel mode st = None.
Proof. intros H. unfold errorPanel. now rewrite H. Qed.

(** With a file loaded the Export tab shows the message. *)
Lemma errorPanel_of_loaded_document :
  errorPanel EXPORT
    (handleFileChange (Some pdfFile) LoadFailed rnd0 (loadedState 1))
  = Some loadErrorMessage.
Proof. reflexivity. Qed.

(** C3. Selecting a PDF that fails to load, with no document loaded yet,
    stores the message as the process error and leaves the sequence empty,
    as the claim says; but the message is not surfaced: the only place
    that renders [processState.error] belongs to the Export tab of
    [<main>], which is rendered once a file is loaded, and the file is
    still [null], so nothing is shown on any tab. *)
Theorem failed_first_load_shows_no_message :
  forall mode : AppMode,
  let st' := handleFileChange (Some pdfFile) LoadFailed rnd0 initialState in
  error (processState st') = Some loadErrorMessage /\
  file st' = None /\
  pages st' = [] /\
  errorPanel mode st' = None.
Proof.
  intros mode. cbn zeta. repeat split.
Qed.

(** ** Export *)

Section ExportFlow.

Lemma last_Forall (A : Type) (P : A -> Prop) (l : list A) (d : A) :
  Forall P l -> P d -> P (last l d).
Proof.
  induction l as [|x l IH]; intros H Hd; [exact Hd|].
  inversion H; subst. destruct l; [assumption|]. now apply IH.
Qed.

(** What the progress reports preserve holds of every state they go
    through. *)
Lemma progress_states_Forall (Q : State -> Prop) d reports acc :
  (forall p s, Q s -> Q (onProgress p s)) ->
  Q d -> Forall Q acc ->
  Forall Q
    (fold_left (fun acc p => acc ++ [onProgress p (last acc d)]) reports acc).
Proof.
  intros Hq Hd. revert acc.
  induction reports as [|p reports IH]; intros acc Hacc; [exact Hacc|].
  cbn [fold_left]. apply IH. apply Forall_app. split; [exact Hacc|].
  constructor; [|constructor].
  apply Hq. now apply last_Forall.
Qed.

Lemma handleProcessTrace_sameDocument reports outcome st :
  Forall (sameDocument st) (handleProcessTrace reports outcome st).
Proof.
  unfold handleProcessTrace. destruct (file st); [|constructor].
  set (started := setProcessState _ st).
  assert (Hs : sameDocument st started) by now repeat split.
  assert (Hr : Forall (sameDocument st)
                 (fold_left
                    (fun acc p => acc ++ [onProgress p (last acc started)])
                    reports [started])).
  { apply progress_states_Forall; [|exact Hs|now constructor].
    intros p s Hq. exact Hq. }
  pose proof (last_Forall _ _ _ started Hr Hs) as H.
  destruct outcome; [| |exact Hr];
    (apply Forall_app; split; [exact Hr|]);
    (constructor; [exact H|constructor]).
Qed.

Lemma handleProcess_sameDocument reports outcome st :
  sameDocument st (handleProcess reports outcome st).
Proof.
  unfold handleProcess. apply last_Forall.
  - apply handleProcessTrace_sameDocument.
  - now repeat split.
Qed.

End ExportFlow.

(** ** The kind invariant *)

Section KindInvariant.

Lemma Forall_firstn_keep (A : Type) (P : A -> Prop) n (l : list A) :
  Forall P l -> Forall P (firstn n l).
Proof.
  intros H. rewrite <- (firstn_skipn n l) in H.
  now apply Forall_app in H.
Qed.

Lemma Forall_skipn_keep (A : Type) (P : A -> Prop) n (l : list A) :
  Forall P l -> Forall P (skipn n l).
Proof.
  intros H. rewrite <- (firstn_skipn n l) in H.
  now apply Forall_app in H.
Qed.

Lemma Forall_filter_idx_from (A : Type) (P : A -> Prop) keep i (l : list A) :
  Forall P l -> Forall P (JS.filter_idx_from keep i l).
Proof.
  intros H. revert i.
  induction H as [|x l Hx Hl IH]; intros i; cbn [JS.filter_idx_from].
  - constructor.
  - destruct (keep i); [constructor|]; auto.
Qed.

Lemma Forall_filter_keep (A : Type) (P : A -> Prop) f (l : list A) :
  Forall P l -> Forall P (filter f l).
Proof.
  intros H. apply Forall_forall. intros x Hx.
  apply filter_In in Hx. rewrite Forall_forall in H. now apply H.
Qed.

Lemma Forall_splice_insert (A : Type) (P : A -> Prop) i (items l : list A) :
  Forall P items -> Forall P l -> Forall P (JS.splice_insert i items l).
Proof.
  intros Hi Hl. unfold JS.splice_insert.
  repeat (apply Forall_app; split);
    auto using Forall_firstn_keep, Forall_skipn_keep.
Qed.

Lemma Forall_movePage (A : Type) (P : A -> Prop) d t (l l' : list A) :
  Forall P l -> movePage d t l = Some l' -> Forall P l'.
Proof.
  intros Hl. unfold movePage, JS.splice_remove1.
  destruct (firstn 1 (skipn d l)) as [|m ms] eqn:E; [discriminate|].
  intros [= <-].
  assert (Hm : Forall P (m :: ms)).
  { rewrite <- E. auto using Forall_firstn_keep, Forall_skipn_keep. }
  apply Forall_splice_insert.
  - constructor; [now inversion Hm|constructor].
  - apply Forall_app. split.
    + now apply Forall_firstn_keep.
    + exact (Forall_skipn_keep A P (S d) l Hl).
Qed.

Lemma Forall_array_from (A : Type) (P : A -> Prop) n (f : nat -> A) :
  (forall i, P (f i)) -> Forall P (JS.array_from n f).
Proof.
  intros H. unfold JS.array_from. apply Forall_forall.
  intros x Hx. apply in_map_iff in Hx. destruct Hx as (i & <- & _). apply H.
Qed.

Lemma stateBuilt_saveToHistory newPages st :
  pagesBuilt newPages -> stateBuilt st ->
  stateBuilt (saveToHistory newPages st).
Proof.
  intros Hn [Hp Hh]. split; cbn [saveToHistory pages history setPages
                                   setHistory]; [exact Hn|].
  apply Forall_app. split.
  - now apply Forall_skipn_keep.
  - now constructor.
Qed.

Lemma stateBuilt_undo st : stateBuilt st -> stateBuilt (undo st).
Proof.
  intros [Hp Hh]. unfold undo.
  destruct (JS.last_elem (history st)) as [prev|] eqn:E; [|now split].
  split; cbn [pages history setPages setHistory].
  - unfold JS.last_elem in E. apply nth_error_In in E.
    rewrite Forall_forall in Hh. now apply Hh.
  - now apply Forall_firstn_keep.
Qed.

Lemma originalPage_built rnd i : builtKind (originalPage rnd i) = true.
Proof. reflexivity. Qed.

Lemma blankPage_built now i : builtKind (blankPage now i) = true.
Proof. reflexivity. Qed.

Lemma stateBuilt_step e ev st st' :
  stateBuilt st -> step e ev st = Some st' -> stateBuilt st'.
Proof.
  intros Hst. pose proof Hst as [Hp Hh].
  destruct ev; cbn [step]; try (intros [= <-]); try exact Hst.
  - unfold handleFileChange. destruct selected as [f|]; [|exact Hst].
    destruct (mimeType f =? "application/pdf")%string; [|exact Hst].
    destruct outcome; [|exact Hst].
    split; cbn; [|constructor].
    apply Forall_array_from, originalPage_built.
  - now apply stateBuilt_undo.
  - unfold handleBulkDelete.
    destruct (parseDeleteRanges _ _ _) as [[|i toDelete]|];
      [now intros [= <-]|intros [= <-]|discriminate].
    apply (stateBuilt_saveToHistory _ st); [|exact Hst].
    now apply Forall_filter_idx_from.
  - apply stateBuilt_saveToHistory; [|exact Hst].
    now apply Forall_filter_keep.
  - unfold handleInsertBlank.
    destruct (insertFails e (insertConfig st)); [exact Hst|].
    apply stateBuilt_saveToHistory; [|exact Hst].
    apply Forall_splice_insert; [|exact Hp].
    apply Forall_array_from, blankPage_built.
  - destruct (handleProcess_sameDocument reports outcome st) as (E1 & E2 & _).
    unfold stateBuilt. now rewrite E1, E2.
  - unfold onDrop. destruct (draggedIndex st) as [d|]; [|now intros [= <-]].
    destruct (d =? targetIndex); [now intros [= <-]|].
    destruct (movePage d targetIndex (pages st)) as [l|] eqn:E;
      [intros [= <-]|discriminate].
    apply (stateBuilt_saveToHistory l st); [|exact Hst].
    exact (Forall_movePage _ _ _ _ _ _ Hp E).
Qed.

Lemma stateBuilt_run e events : forall st st',
  stateBuilt st -> run e events st = Some st' -> stateBuilt st'.
Proof.
  induction events as [|ev events IH]; intros st st' Hst; cbn [run].
  - now intros [= <-].
  - destruct (step e ev st) as [s|] eqn:E; [|discriminate].
    apply IH. exact (stateBuilt_step e ev st s Hst E).
Qed.

End KindInvariant.




(** When [processPdf] fails with a value that has properties, the export
    ends in the state
    [{ isProcessing: false, progress: 0, error: message, resultUrl: null }],
    whose message is not empty (the thrown message, or the "Unknown error"
    text when there is none); no state the export goes through has a result
    URL, and no state before the last one has an error.  The pages are
    untouched. *)
Theorem failed_export_ends_in_error (reports : list Z)
    (message : option string) (st : State) :
  file st <> None ->
  let trace := handleProcessTrace reports (Rejected message) st in
  let st' := handleProcess reports (Rejected message) st in
  processState st' =
    mkProcessingState false 0 (Some (errorText message)) None /\
  errorText message <> "" /\
  trace <> [] /\
  Forall (fun s => resultUrl (processState s) = None) trace /\
  Forall (fun s => error (processState s) = None) (removelast trace) /\
  pages st' = pages st.
Proof.
  intros Hfile. cbn zeta.
  assert (Hpages : pages (handleProcess reports (Rejected message) st)
                   = pages st)
    by apply handleProcess_sameDocument.
  unfold handleProcess in *. unfold handleProcessTrace in *.
  destruct (file st) as [f|]; [clear Hfile|congruence].
  set (started := setProcessState (mkProcessingState true 0 None None) st)
    in *.
  set (running := fold_left _ reports [started]) in *.
  assert (Hrun : Forall (fun s => resultUrl (processState s) = None /\
                                  error (processState s) = None) running).
  { apply progress_states_Forall.
    - intros p s Hs. exact Hs.
    - now split.
    - constructor; [now split|constructor]. }
  rewrite last_last in Hpages. rewrite last_last, removelast_last.
  split; [reflexivity|]. split.
  { unfold errorText. destruct message as [m|]; [|discriminate].
    destruct (String.eqb_spec m ""); [discriminate|assumption]. }
  split; [now destruct running|]. split.
  { apply Forall_app. split; [|now repeat constructor].
    eapply Forall_impl; [|exact Hrun]. now intros s [H _]. }
  split; [|exact Hpages].
  eapply Forall_impl; [|exact Hrun]. now intros s [_ H].
Qed.

Lemma failed_export_ends_in_error_witness :
  processState
    (handleProcess [25%Z; 50%Z] (Rejected (Some "bad page")) (loadedState 3))
  = mkProcessingState false 0 (Some "bad page") None.
Proof.
  exact (proj1 (failed_export_ends_in_error [25%Z; 50%Z] (Some "bad page")
                  (loadedState 3) ltac:(discriminate))).
Defined.

(** ** Drag and drop *)

Section Move.
Context {A : Type}.

(** Moving the element that follows [l1]. *)
Lemma movePage_split (l1 l2 : list A) (x : A) (t : nat) :
  movePage (length l1) t (l1 ++ x :: l2) =
  Some (JS.splice_insert t [x] (l1 ++ l2)).
Proof.
  unfold movePage, JS.splice_remove1.
  rewrite !skipn_app, !firstn_app, firstn_all, Nat.sub_diag.
  rewrite skipn_all, (skipn_all2 (n := S (length l1))) by lia.
  replace (S (length l1) - length l1) with 1 by lia.
  cbn [skipn firstn app]. now rewrite app_nil_r.
Qed.

Lemma movePage_in_bounds (d t : nat) (l : list A) :
  d < length l ->
  exists l1 x l2,
    l = l1 ++ x :: l2 /\ length l1 = d /\
    movePage d t l = Some (JS.splice_insert t [x] (l1 ++ l2)).
Proof.
  intros Hd. destruct (nth_error l d) as [x|] eqn:E.
  - destruct (nth_error_split l d E) as (l1 & l2 & -> & <-).
    exists l1, x, l2. auto using movePage_split.
  - apply nth_error_None in E. lia.
Qed.

(** Moving the inserted element away again. *)
Lemma movePage_splice_insert (t d : nat) (x : A) (r : list A) :
  t <= length r ->
  movePage t d (JS.splice_insert t [x] r) = Some (JS.splice_insert d [x] r).
Proof.
  intros Ht. unfold JS.splice_insert at 1. cbn [app].
  assert (E : length (firstn t r) = t) by (rewrite length_firstn; lia).
  rewrite <- E at 1. rewrite movePage_split. now rewrite firstn_skipn.
Qed.

Lemma splice_insert_back (l1 l2 : list A) (x : A) :
  JS.splice_insert (length l1) [x] (l1 ++ l2) = l1 ++ x :: l2.
Proof.
  unfold JS.splice_insert.
  rewrite firstn_app, skipn_app, firstn_all, skipn_all, Nat.sub_diag.
  cbn [firstn skipn app]. now rewrite app_nil_r.
Qed.

Lemma movePage_inverse (d t : nat) (l : list A) :
  d < length l -> t < length l ->
  exists moved,
    movePage d t l = Some moved /\ movePage t d moved = Some l.
Proof.
  intros Hd Ht.
  destruct (movePage_in_bounds d t l Hd) as (l1 & x & l2 & -> & <- & E).
  eexists. split; [exact E|].
  rewrite movePage_splice_insert.
  - now rewrite splice_insert_back.
  - rewrite length_app in *. cbn [length] in Ht. lia.
Qed.

Lemma splice_insert_one_perm (t : nat) (x : A) (r : list A) :
  Permutation (x :: r) (JS.splice_insert t [x] r).
Proof.
  unfold JS.splice_insert. cbn [app].
  rewrite <- (firstn_skipn t r) at 1. apply Permutation_middle.
Qed.

Lemma movePage_out_of_bounds (d t : nat) (l : list A) :
  length l <= d -> movePage d t l = None.
Proof.
  intros H. unfold movePage, JS.splice_remove1.
  now rewrite skipn_all2 by exact H.
Qed.

Lemma movePage_perm (d t : nat) (l moved : list A) :
  movePage d t l = Some moved -> Permutation l moved.
Proof.
  intros H.
  destruct (Nat.lt_ge_cases d (length l)) as [Hd|Hd].
  - destruct (movePage_in_bounds d t l Hd) as (l1 & x & l2 & -> & _ & E).
    rewrite E in H. injection H as <-.
    eapply Permutation_trans; [|apply splice_insert_one_perm].
    apply Permutation_sym, Permutation_middle.
  - rewrite movePage_out_of_bounds in H by exact Hd. discriminate.
Qed.

End Move.

Lemma onDrop_moves (dragged targetIndex : nat) (st : State) :
  dragged <> targetIndex ->
  onDrop targetIndex (onDragStart dragged st) =
  match movePage dragged targetIndex (pages st) with
  | Some updatedPages =>
      Some (setDraggedIndex None
              (saveToHistory updatedPages (onDragStart dragged st)))
  | None => None
  end.
Proof.
  intros Hne. unfold onDrop. cbn [draggedIndex onDragStart setDraggedIndex].
  apply Nat.eqb_neq in Hne. now rewrite Hne.
Qed.

(** C5. Dragging the page at [fromIndex] onto the one at [toIndex] (both in
    bounds) and then at once dragging the page at [toIndex] onto the one at
    [fromIndex] gives the original pages back.  A drop removes the dragged
    descriptor and inserts it at the target index of the array it was
    removed from. *)
Theorem move_then_move_back (fromIndex toIndex : nat) (st : State) :
  fromIndex < length (pages st) ->
  toIndex < length (pages st) ->
  exists st1 st2,
    onDrop toIndex (onDragStart fromIndex st) = Some st1 /\
    onDrop fromIndex (onDragStart toIndex st1) = Some st2 /\
    pages st2 = pages st /\
    movePage fromIndex toIndex (pages st) = Some (pages st1) /\
    movePage toIndex fromIndex (pages st1) = Some (pages st).
Proof.
  intros Hf Ht.
  destruct (Nat.eq_dec fromIndex toIndex) as [<-|Hne].
  - exists (onDragStart fromIndex st), (onDragStart fromIndex st).
    assert (E : onDrop fromIndex (onDragStart fromIndex st)
                = Some (onDragStart fromIndex st)).
    { unfold onDrop. cbn [draggedIndex onDragStart setDraggedIndex].
      now rewrite Nat.eqb_refl. }
    assert (Es : onDragStart fromIndex (onDragStart fromIndex st)
                 = onDragStart fromIndex st) by reflexivity.
    rewrite Es, E. cbn [pages onDragStart setDraggedIndex].
    destruct (movePage_in_bounds fromIndex fromIndex (pages st) Hf)
      as (l1 & x & l2 & El & <- & Em).
    rewrite Em, El, splice_insert_back. auto.
  - destruct (movePage_inverse fromIndex toIndex (pages st) Hf Ht)
      as (moved & E1 & E2).
    rewrite (onDrop_moves fromIndex toIndex st Hne), E1.
    eexists. eexists. split; [reflexivity|].
    rewrite onDrop_moves by auto.
    cbn [pages setDraggedIndex saveToHistory setPages setHistory onDragStart].
    rewrite E2. auto.
Qed.

Lemma move_then_move_back_witness :
  exists st1 st2,
    onDrop 2 (onDragStart 0 (loadedState 4)) = Some st1 /\
    onDrop 0 (onDragStart 2 st1) = Some st2 /\
    pages st2 = pages (loadedState 4) /\
    movePage 0 2 (pages (loadedState 4)) = Some (pages st1) /\
    movePage 2 0 (pages st1) = Some (pages (loadedState 4)).
Proof.
  apply (move_then_move_back 0 2 (loadedState 4)); vm_compute; lia.
Defined.

(** C10. A drop with the dragged index and the target index in bounds
    permutes the pages: the new sequence has the same length and the same
    descriptors, each as often as before, and so the same identifiers; if
    the identifiers were distinct they still are. *)
Theorem onDrop_permutes (dragged targetIndex : nat) (st : State) :
  draggedIndex st = Some dragged ->
  dragged < length (pages st) ->
  targetIndex < length (pages st) ->
  exists st',
    onDrop targetIndex st = Some st' /\
    Permutation (pages st) (pages st') /\
    length (pages st') = length (pages st) /\
    Permutation (map id (pages st)) (map id (pages st')) /\
    (NoDup (map id (pages st)) -> NoDup (map id (pages st'))).
Proof.
  intros Hd Hlt Ht.
  assert (G : forall st', Permutation (pages st) (pages st') ->
                Permutation (pages st) (pages st') /\
                length (pages st') = length (pages st) /\
                Permutation (map id (pages st)) (map id (pages st')) /\
                (NoDup (map id (pages st)) -> NoDup (map id (pages st')))).
  { intros st' P. split; [exact P|]. split.
    - symmetry. now apply Permutation_length.
    - split; [now apply Permutation_map|].
      apply Permutation_NoDup. now apply Permutation_map. }
  unfold onDrop. rewrite Hd.
  destruct (dragged =? targetIndex).
  - exists st. split; [reflexivity|]. now apply G.
  - destruct (movePage_in_bounds dragged targetIndex (pages st) Hlt)
      as (l1 & x & l2 & El & _ & Em).
    rewrite Em. eexists. split; [reflexivity|]. apply G.
    cbn [pages setDraggedIndex saveToHistory setPages setHistory].
    exact (movePage_perm _ _ _ _ Em).
Qed.

Lemma onDrop_permutes_witness :
  exists st',
    onDrop 0 (onDragStart 3 (loadedState 4)) = Some st' /\
    Permutation (pages (onDragStart 3 (loadedState 4))) (pages st') /\
    length (pages st') = length (pages (onDragStart 3 (loadedState 4))) /\
    Permutation (map id (pages (onDragStart 3 (loadedState 4))))
                (map id (pages st')) /\
    (NoDup (map id (pages (onDragStart 3 (loadedState 4)))) ->
     NoDup (map id (pages st'))).
Proof.
  apply (onDrop_permutes 3 0 (onDragStart 3 (loadedState 4)));
    [reflexivity|vm_compute; lia|vm_compute; lia].
Defined.

(** ** Range parsing *)

Section Ranges.

Lemma set_has_In x s : JS.set_has x s = true <-> In x s.
Proof.
  unfold JS.set_has. rewrite existsb_exists. split.
  - intros (y & Hy & E). apply Z.eqb_eq in E. now subst.
  - intros H. exists x. split; [exact H|apply Z.eqb_refl].
Qed.

Lemma set_add_spec cap x s s' :
  JS.set_add cap x s = Some s' -> NoDup s ->
  NoDup s' /\ forall y, In y s' <-> y = x \/ In y s.
Proof.
  unfold JS.set_add. destruct (JS.set_has x s) eqn:E.
  - intros [= <-] H. split; [exact H|]. apply set_has_In in E.
    intros y. split; [auto|]. now intros [->|Hy].
  - destruct (Z.of_nat (length s) <? Z.pos cap)%Z; [|discriminate].
    intros [= <-] H. split.
    + apply NoDup_app; [exact H|repeat constructor; intros []|].
      intros y Hy [<-|[]]. apply set_has_In in Hy. congruence.
    + intros y. rewrite in_app_iff. cbn. intuition congruence.
Qed.

Lemma set_add_mono c c' x s s' :
  (c <= c')%positive ->
  JS.set_add c x s = Some s' -> JS.set_add c' x s = Some s'.
Proof.
  intros Hc. unfold JS.set_add. destruct (JS.set_has x s); [auto|].
  destruct (Z.ltb_spec (Z.of_nat (length s)) (Z.pos c)); [|discriminate].
  destruct (Z.ltb_spec (Z.of_nat (length s)) (Z.pos c')); [auto|lia].
Qed.

Lemma rangeLoop_none e lo ks : fold_left (rangeStep e lo) ks None = None.
Proof. induction ks as [|k ks IH]; [reflexivity|exact IH]. Qed.

Lemma rangeLoop_spec e lo ks : forall s s',
  fold_left (rangeStep e lo) ks (Some s) = Some s' -> NoDup s ->
  NoDup s' /\
  forall y, In y s' <->
            In y s \/ exists k, In k ks /\ y = (lo + Z.of_nat k - 1)%Z.
Proof.
  induction ks as [|k ks IH]; intros s s'; cbn [fold_left].
  - intros [= <-] H. split; [exact H|]. intros y. split; [auto|].
    now intros [Hy|(k & [] & _)].
  - cbn [rangeStep].
    destruct (JS.set_add (setCapacity e) (lo + Z.of_nat k - 1) s)
      as [s1|] eqn:E; [|now rewrite rangeLoop_none].
    intros Hs H. destruct (set_add_spec _ _ _ _ E H) as [H1 M1].
    destruct (IH _ _ Hs H1) as [H2 M2]. split; [exact H2|].
    intros y. rewrite M2, M1. split.
    + intros [[->|Hy]|(k' & Hk & Ey)]; eauto.
      * right. exists k. cbn. auto.
      * right. exists k'. cbn. auto.
    + intros [Hy|(k' & [<-|Hk] & Ey)]; eauto.
Qed.

Lemma rangeLoop_mono e e' lo ks : forall s s',
  (setCapacity e <= setCapacity e')%positive ->
  fold_left (rangeStep e lo) ks (Some s) = Some s' ->
  fold_left (rangeStep e' lo) ks (Some s) = Some s'.
Proof.
  induction ks as [|k ks IH]; intros s s' Hc; cbn [fold_left]; [auto|].
  cbn [rangeStep].
  destruct (JS.set_add (setCapacity e) (lo + Z.of_nat k - 1) s)
    as [s1|] eqn:E; [|now rewrite rangeLoop_none].
  rewrite (set_add_mono _ _ _ _ _ Hc E). now apply IH.
Qed.

Lemma rangeLoop_fits e lo ks : forall s,
  (Z.of_nat (length s + length ks) <= Z.pos (setCapacity e))%Z ->
  exists s', fold_left (rangeStep e lo) ks (Some s) = Some s'.
Proof.
  induction ks as [|k ks IH]; intros s H; cbn [fold_left]; [eauto|].
  cbn [length] in H. cbn [rangeStep]. unfold JS.set_add at 1.
  destruct (JS.set_has (lo + Z.of_nat k - 1) s).
  - apply IH. lia.
  - destruct (Z.ltb_spec (Z.of_nat (length s)) (Z.pos (setCapacity e)));
      [|lia].
    apply IH. rewrite length_app. cbn [length]. lia.
Qed.

Lemma addRange_spec e lo hi s s' :
  addRange e lo hi s = Some s' -> NoDup s ->
  NoDup s' /\ forall y, In y s' <-> In y s \/ (lo <= y + 1 <= hi)%Z.
Proof.
  unfold addRange.
  destruct (negb (JS.isSafeInteger lo && JS.isSafeInteger hi));
    [discriminate|].
  destruct (Z.pos (setCapacity e) <? hi - lo + 1)%Z; [discriminate|].
  intros Hs H. destruct (rangeLoop_spec _ _ _ _ _ Hs H) as [H1 M].
  split; [exact H1|]. intros y. rewrite M. split.
  - intros [Hy|(k & Hk & ->)]; [auto|]. apply in_seq in Hk. right. lia.
  - intros [Hy|Hy]; [auto|]. right. exists (Z.to_nat (y + 1 - lo)).
    split; [apply in_seq|]; lia.
Qed.

Lemma addRange_mono e e' lo hi s s' :
  (setCapacity e <= setCapacity e')%positive ->
  addRange e lo hi s = Some s' -> addRange e' lo hi s = Some s'.
Proof.
  intros Hc. unfold addRange.
  destruct (negb (JS.isSafeInteger lo && JS.isSafeInteger hi));
    [discriminate|].
  destruct (Z.ltb_spec (Z.pos (setCapacity e)) (hi - lo + 1));
    [discriminate|].
  destruct (Z.ltb_spec (Z.pos (setCapacity e')) (hi - lo + 1)); [lia|].
  now apply rangeLoop_mono.
Qed.

Lemma addPart_spec e part s s' :
  addPart e s part = Some s' -> NoDup s ->
  NoDup s' /\ forall y, In y s' <-> In y s \/ partSelects part y.
Proof.
  unfold addPart, partSelects. destruct (JS.includes "-" part).
  - destruct (map JS.parseInt (JS.split "-" part)) as [|[a|] [|[b|] rest]];
      try (intros [= <-] H; split; [exact H|]; intros y; tauto).
    apply addRange_spec.
  - destruct (JS.parseInt part) as [n|].
    + intros Hs H. destruct (set_add_spec _ _ _ _ Hs H) as [H1 M].
      split; [exact H1|]. intros y. rewrite M. split.
      * intros [->|Hy]; [right; f_equal; lia|auto].
      * intros [Hy|[= ->]]; [auto|left; lia].
    + intros [= <-] H. split; [exact H|]. intros y. split; [auto|].
      now intros [Hy|Hy].
Qed.

Lemma addPart_mono e e' part s s' :
  (setCapacity e <= setCapacity e')%positive ->
  addPart e s part = Some s' -> addPart e' s part = Some s'.
Proof.
  intros Hc. unfold addPart. destruct (JS.includes "-" part).
  - destruct (map JS.parseInt (JS.split "-" part)) as [|[a|] [|[b|] rest]];
      auto. now apply addRange_mono.
  - destruct (JS.parseInt part); [now apply set_add_mono|auto].
Qed.

Lemma partsLoop_none e parts : fold_left (partStep e) parts None = None.
Proof. induction parts as [|p parts IH]; [reflexivity|exact IH]. Qed.

Lemma partsLoop_spec e parts : forall s s',
  fold_left (partStep e) parts (Some s) = Some s' -> NoDup s ->
  NoDup s' /\
  forall y, In y s' <->
            In y s \/ exists part, In part parts /\ partSelects part y.
Proof.
  induction parts as [|p parts IH]; intros s s'; cbn [fold_left].
  - intros [= <-] H. split; [exact H|]. intros y. split; [auto|].
    now intros [Hy|(q & [] & _)].
  - cbn [partStep].
    destruct (addPart e s p) as [s1|] eqn:E; [|now rewrite partsLoop_none].
    intros Hs H. destruct (addPart_spec _ _ _ _ E H) as [H1 M1].
    destruct (IH _ _ Hs H1) as [H2 M2]. split; [exact H2|].
    intros y. rewrite M2, M1. split.
    + intros [[Hy|Hy]|(q & Hq & Hy)]; eauto.
      * right. exists p. cbn. auto.
      * right. exists q. cbn. auto.
    + intros [Hy|(q & [<-|Hq] & Hy)]; eauto.
Qed.

Lemma partsLoop_mono e e' parts : forall s s',
  (setCapacity e <= setCapacity e')%positive ->
  fold_left (partStep e) parts (Some s) = Some s' ->
  fold_left (partStep e') parts (Some s) = Some s'.
Proof.
  induction parts as [|p parts IH]; intros s s' Hc; cbn [fold_left]; [auto|].
  cbn [partStep].
  destruct (addPart e s p) as [s1|] eqn:E; [|now rewrite partsLoop_none].
  rewrite (addPart_mono _ _ _ _ _ Hc E). now apply IH.
Qed.

Lemma parseDeleteRanges_spec e input n found :
  parseDeleteRanges e input n = Some found ->
  NoDup found /\
  forall i, In i found <->
            (0 <= i < Z.of_nat n)%Z /\
            exists part,
              In part (map JS.trim (JS.split "," input)) /\
              partSelects part i.
Proof.
  unfold parseDeleteRanges.
  destruct (fold_left (partStep e) (map JS.trim (JS.split "," input)) (Some []))
    as [s|] eqn:E; [|discriminate].
  intros [= <-]. destruct (partsLoop_spec _ _ _ _ E (NoDup_nil _)) as [H M].
  split; [now apply NoDup_filter|].
  intros i. rewrite filter_In, M, andb_true_iff, Z.leb_le, Z.ltb_lt.
  cbn [In]. tauto.
Qed.

(** A set that holds more lets [parseDeleteRanges] give the same result. *)
Lemma parseDeleteRanges_mono e e' input n found :
  (setCapacity e <= setCapacity e')%positive ->
  parseDeleteRanges e input n = Some found ->
  parseDeleteRanges e' input n = Some found.
Proof.
  intros Hc. unfold parseDeleteRanges.
  destruct (fold_left (partStep e) (map JS.trim (JS.split "," input)) (Some []))
    as [s|] eqn:E; [|discriminate].
  now rewrite (partsLoop_mono _ _ _ _ _ Hc E).
Qed.

Lemma split_no_separator sep s :
  JS.includes sep s = false -> JS.split sep s = [s].
Proof.
  induction s as [|c s IH]; cbn; [reflexivity|].
  intros H. apply orb_false_iff in H. destruct H as [Hc Hs].
  rewrite Hc, (IH Hs). reflexivity.
Qed.

Lemma split_at_separator sep sa sb :
  JS.includes sep sa = false ->
  JS.split sep (sa ++ String sep sb)%string = sa :: JS.split sep sb.
Proof.
  induction sa as [|c sa IH]; cbn; intros H.
  - now rewrite Ascii.eqb_refl.
  - apply orb_false_iff in H. destruct H as [Hc Hs].
    rewrite Hc, (IH Hs). reflexivity.
Qed.

Lemma includes_append sep sa sb :
  JS.includes sep (sa ++ String sep sb)%string = true.
Proof.
  induction sa as [|c sa IH]; cbn.
  - now rewrite Ascii.eqb_refl.
  - rewrite IH. apply orb_true_r.
Qed.

Lemma parseDeleteRanges_one_part e input n :
  JS.includes "," input = false -> JS.trim input = input ->
  parseDeleteRanges e input n =
  match addPart e [] input with
  | Some found =>
      Some (filter (fun i => (0 <=? i)%Z && (i <? Z.of_nat n)%Z) found)
  | None => None
  end.
Proof.
  intros Hc Ht. unfold parseDeleteRanges.
  rewrite split_no_separator by exact Hc. cbn [map fold_left].
  now rewrite Ht.
Qed.

(** A hyphenated part reads the same with its two ends exchanged. *)
Lemma addPart_order e sa sb indices :
  JS.includes "-" sa = false -> JS.includes "-" sb = false ->
  addPart e indices (sa ++ "-" ++ sb)%string =
  addPart e indices (sb ++ "-" ++ sa)%string.
Proof.
  intros Ha Hb. unfold addPart. cbn [String.append].
  rewrite !includes_append, !split_at_separator by assumption.
  rewrite !split_no_separator by assumption. cbn [map].
  destruct (JS.parseInt sa) as [a|], (JS.parseInt sb) as [b|]; auto.
  now rewrite Z.min_comm, Z.max_comm.
Qed.

End Ranges.

(** C6. [parseDeleteRanges] maps the text and the page count to zero-based
    indices without repetition, all within the sequence.  Over 20 pages,
    "1,3,10-15" gives 0, 2, 9, 10, 11, 12, 13, 14 (on every engine whose
    sets hold 8 elements) and "15-10" gives what "10-15" gives, 9 to 14; in
    general a part [a-b] adds what [b-a] adds. *)
Theorem parseDeleteRanges_examples :
  (forall e, (8 <= setCapacity e)%positive ->
     parseDeleteRanges e "1,3,10-15" 20 =
     Some [0; 2; 9; 10; 11; 12; 13; 14]%Z) /\
  (forall e, parseDeleteRanges e "15-10" 20 = parseDeleteRanges e "10-15" 20)
  /\
  (forall e, (6 <= setCapacity e)%positive ->
     parseDeleteRanges e "10-15" 20 = Some [9; 10; 11; 12; 13; 14]%Z) /\
  (forall e sa sb indices,
      JS.includes "-" sa = false -> JS.includes "-" sb = false ->
      addPart e indices (sa ++ "-" ++ sb)%string =
      addPart e indices (sb ++ "-" ++ sa)%string) /\
  (forall e input pagesLength found,
      parseDeleteRanges e input pagesLength = Some found ->
      NoDup found /\
      Forall (fun i => (0 <= i < Z.of_nat pagesLength)%Z) found).
Proof.
  split.
  { intros e H. apply (parseDeleteRanges_mono (mkEngine 8 1));
      [exact H|reflexivity]. }
  split.
  { intros e.
    rewrite (parseDeleteRanges_one_part e "15-10") by reflexivity.
    rewrite (parseDeleteRanges_one_part e "10-15") by reflexivity.
    pose proof (addPart_order e "15" "10" [] eq_refl eq_refl) as O.
    cbn [String.append] in O. now rewrite O. }
  split.
  { intros e H. apply (parseDeleteRanges_mono (mkEngine 6 1));
      [exact H|reflexivity]. }
  split; [exact addPart_order|].
  intros e input n found Hf.
  destruct (parseDeleteRanges_spec e input n found Hf) as [H M].
  split; [exact H|]. apply Forall_forall. intros i Hi. now apply M in Hi.
Qed.

Lemma parseDeleteRanges_examples_witness :
  parseDeleteRanges engine0 "1,3,10-15" 20 =
    Some [0; 2; 9; 10; 11; 12; 13; 14]%Z /\
  addPart engine0 [] "10-15" = addPart engine0 [] "15-10".
Proof.
  split.
  - apply (proj1 parseDeleteRanges_examples engine0). vm_compute. discriminate.
  - exact (proj1 (proj2 (proj2 (proj2 parseDeleteRanges_examples)))
             engine0 "10" "15" [] eq_refl eq_refl).
Defined.

(** ** Inserting blanks *)

Section InsertBlanks.

Lemma handleInsertBlank_fails e now st :
  insertFails e (insertConfig st) = true -> handleInsertBlank e now st = st.
Proof. intros H. unfold handleInsertBlank. now rewrite H. Qed.

Lemma handleInsertBlank_ok e now st :
  insertFails e (insertConfig st) = false ->
  handleInsertBlank e now st =
  saveToHistory
    (JS.splice_insert (insertTargetIdx (length (pages st)) (insertConfig st))
       (JS.array_from (Z.to_nat (JS.to_length (count (insertConfig st))))
          (blankPage now))
       (pages st)) st.
Proof. intros H. unfold handleInsertBlank. now rewrite H. Qed.

Lemma handleInsertBlank_pages e now st :
  insertFails e (insertConfig st) = false ->
  pages (handleInsertBlank e now st) =
  JS.splice_insert (insertTargetIdx (length (pages st)) (insertConfig st))
    (JS.array_from (Z.to_nat (JS.to_length (count (insertConfig st))))
       (blankPage now))
    (pages st).
Proof. intros H. now rewrite handleInsertBlank_ok. Qed.

Lemma splice_insert_length (A : Type) i (items l : list A) :
  length (JS.splice_insert i items l) = length l + length items.
Proof.
  unfold JS.splice_insert.
  rewrite !length_app, length_firstn, length_skipn. lia.
Qed.

(** Where the insertion does not fail, as many blanks are inserted as
    [count] says, none when it is negative. *)
Lemma handleInsertBlank_length e now st :
  insertFails e (insertConfig st) = false ->
  length (pages (handleInsertBlank e now st)) =
  length (pages st) + Z.to_nat (JS.to_length (count (insertConfig st))).
Proof.
  intros H. rewrite handleInsertBlank_pages, splice_insert_length by exact H.
  unfold JS.array_from. now rewrite length_map, length_seq.
Qed.

Lemma to_length_nonpositive c : (c <= 0)%Z -> JS.to_length c = 0%Z.
Proof. unfold JS.to_length. lia. Qed.

Lemma to_length_small c :
  (0 <= c <= JS.maxArrayLength)%Z -> JS.to_length c = c.
Proof. unfold JS.to_length, JS.maxArrayLength. lia. Qed.

Lemma insertFails_nonpositive e c :
  (count c <= 0)%Z -> insertFails e c = false.
Proof.
  intros H. unfold insertFails. rewrite to_length_nonpositive by exact H.
  reflexivity.
Qed.

(** An insertion fails exactly for a count past what the engine spreads or
    past the longest array. *)
Lemma insertFails_iff e c :
  insertFails e c = true <->
  (Z.pos (spreadLimit e) < count c \/ JS.maxArrayLength < count c)%Z.
Proof.
  unfold insertFails, JS.to_length, JS.maxArrayLength.
  rewrite orb_true_iff, !Z.ltb_lt. lia.
Qed.

Lemma insertFails_one e c : count c = 1%Z -> insertFails e c = false.
Proof.
  intros H. destruct (insertFails e c) eqn:E; [|reflexivity].
  apply insertFails_iff in E. unfold JS.maxArrayLength in E. lia.
Qed.

(** The Count input replaces an empty text and 0 by 1 and lets a
    negative number through. *)
Lemma parseIntOr1_cases :
  parseIntOr1 "" = 1%Z /\ parseIntOr1 "0" = 1%Z /\
  parseIntOr1 "2" = 2%Z /\ parseIntOr1 "-3" = (-3)%Z.
Proof. repeat split; reflexivity. Qed.

End InsertBlanks.

(** C7. The claim holds of the code for the counts 0 and "not a number",
    which the Count input turns into 1, and fails for a negative count:
    typing -3 into the Count input of a 5-page document sets [count] to -3,
    and inserting then adds no blank, the sequence keeps its 5 pages (a
    snapshot is pushed on the history all the same), on every engine. *)
Theorem negative_count_inserts_no_blank :
  forall e : Engine,
  let st := onCountChange "-3" (loadedState 5) in
  let st' := handleInsertBlank e now0 st in
  count (insertConfig st) = (-3)%Z /\
  pages st' = pages (loadedState 5) /\
  length (pages st') = 5 /\
  history st' = [pages (loadedState 5)] /\
  length (pages (handleInsertBlank e now0
                   (onCountChange "0" (loadedState 5))))
  = 6.
Proof.
  intros e. cbn zeta.
  rewrite (handleInsertBlank_ok e now0 (onCountChange "-3" (loadedState 5)))
    by (apply insertFails_nonpositive; vm_compute; discriminate).
  rewrite (handleInsertBlank_ok e now0 (onCountChange "0" (loadedState 5)))
    by (apply insertFails_one; reflexivity).
  repeat split; reflexivity.
Qed.


(** * Further properties of the handlers *)

(** ** Loading *)

(** X1. Loading a PDF of [n] pages replaces the document: the sequence is the
    [n] descriptors of source pages 0 to [n - 1] in source order, all of
    kind [original] ([n] may be 0, which gives the empty sequence); the
    history is emptied, so the load cannot be undone and [undo] changes
    nothing; the process state is reset. *)
Theorem load_replaces_document (f : File) (n : nat) (rnd : nat -> string)
    (st : State) :
  mimeType f = "application/pdf" ->
  let st' := handleFileChange (Some f) (Loaded n) rnd st in
  length (pages st') = n /\
  (forall i, nth_error (pages st') i =
             if i <? n then Some (originalPage rnd i) else None) /\
  map originalPageIndex (pages st') = map Some (seq 0 n) /\
  map label (pages st') =
    map (fun i => ("Page " ++ JS.show (N.of_nat (i + 1)))%string) (seq 0 n) /\
  Forall (fun p => type p = original) (pages st') /\
  file st' = Some f /\
  history st' = [] /\
  undo st' = st' /\
  processState st' = mkProcessingState false 0 None None.
Proof.
  intros E. cbn zeta. unfold handleFileChange. rewrite E, String.eqb_refl.
  cbn [pages history file processState setProcessState setHistory setPages
       setFile].
  unfold JS.array_from.
  split; [now rewrite length_map, length_seq|].
  split.
  { intros i. destruct (Nat.ltb_spec i n) as [H|H].
    - rewrite nth_error_map, nth_error_seq.
      apply Nat.ltb_lt in H. now rewrite H.
    - apply nth_error_None. now rewrite length_map, length_seq. }
  split; [now rewrite map_map|].
  split; [now rewrite map_map|].
  split; [apply Forall_forall; intros p Hp; apply in_map_iff in Hp;
          now destruct Hp as (i & <- & _)|].
  repeat split.
Qed.

Lemma load_replaces_document_witness :
  length (pages (handleFileChange (Some pdfFile) (Loaded 3) rnd0
                   (loadedState 7))) = 3.
Proof.
  exact (proj1 (load_replaces_document pdfFile 3 rnd0 (loadedState 7)
                  eq_refl)).
Defined.

(** X2. A selection that is no PDF is ignored, as is an empty selection:
    whatever loading it would have come to, the state stays as it is and no
    error is recorded. *)
Theorem other_selection_is_ignored (f : File) (outcome : LoadOutcome)
    (rnd : nat -> string) (st : State) :
  mimeType f <> "application/pdf" ->
  handleFileChange (Some f) outcome rnd st = st /\
  handleFileChange None outcome rnd st = st.
Proof.
  intros H. split; [|reflexivity]. unfold handleFileChange.
  destruct (String.eqb_spec (mimeType f) "application/pdf"); [contradiction|].
  reflexivity.
Qed.

Lemma other_selection_is_ignored_witness :
  handleFileChange (Some (mkFile "scan.png" "image/png")) LoadFailed rnd0
    (loadedState 2) = loadedState 2.
Proof.
  exact (proj1 (other_selection_is_ignored (mkFile "scan.png" "image/png")
                  LoadFailed rnd0 (loadedState 2) ltac:(discriminate))).
Defined.

(** ** The depth of the history *)

Section HistoryDepth.

Lemma slice_last_snoc (A : Type) (m : nat) (l : list A) (x : A) :
  1 <= m -> JS.slice_last m (l ++ [x]) = JS.slice_last (m - 1) l ++ [x].
Proof.
  intros Hm. unfold JS.slice_last. rewrite length_app, skipn_app.
  cbn [length].
  replace (length l + 1 - m) with (length l - (m - 1)) by lia.
  replace (length l - (m - 1) - length l) with 0 by lia.
  reflexivity.
Qed.

Lemma slice_last_twice (A : Type) (a b : nat) (l : list A) :
  JS.slice_last a (JS.slice_last b l) = JS.slice_last (Nat.min a b) l.
Proof.
  unfold JS.slice_last. rewrite skipn_skipn, length_skipn. f_equal. lia.
Qed.

Lemma slice_last_all (A : Type) (m : nat) (l : list A) :
  length l <= m -> JS.slice_last m l = l.
Proof.
  intros H. unfold JS.slice_last.
  replace (length l - m) with 0 by lia. reflexivity.
Qed.

Lemma saveToHistory_history_length newPages st :
  length (history (saveToHistory newPages st)) <= 20.
Proof.
  unfold saveToHistory. cbn [history setPages setHistory].
  rewrite length_app. pose proof (slice_last_length _ 19 (history st)).
  cbn [length]. lia.
Qed.

Lemma historyBounded_step e ev st st' :
  length (history st) <= 20 -> step e ev st = Some st' ->
  length (history st') <= 20.
Proof.
  intros H. destruct ev; cbn [step]; try (intros [= <-]); try exact H;
    try apply saveToHistory_history_length.
  - unfold handleFileChange. destruct selected as [f|]; [|exact H].
    destruct (mimeType f =? "application/pdf")%string; [|exact H].
    destruct outcome; [cbn; lia|exact H].
  - rewrite undo_history_length. lia.
  - unfold handleBulkDelete.
    destruct (parseDeleteRanges _ _ _) as [[|i toDelete]|];
      [now intros [= <-]|intros [= <-]|discriminate].
    apply saveToHistory_history_length.
  - unfold handleInsertBlank.
    destruct (insertFails e (insertConfig st)); [exact H|].
    apply saveToHistory_history_length.
  - destruct (handleProcess_sameDocument reports outcome st) as (_ & E & _).
    now rewrite E.
  - unfold onDrop. destruct (draggedIndex st) as [d|]; [|now intros [= <-]].
    destruct (d =? targetIndex); [now intros [= <-]|].
    destruct (movePage d targetIndex (pages st)) as [l|];
      [intros [= <-]|discriminate].
    apply saveToHistory_history_length.
Qed.

(** Undoing a run of at most 20 mutations, one [undo] for each. *)
Lemma undo_saveAll snapshots : forall st,
  length (history st) <= 20 ->
  length snapshots <= 20 ->
  Nat.iter (length snapshots) undo (saveAll snapshots st) =
  setHistory (JS.slice_last (20 - length snapshots) (history st)) st.
Proof.
  induction snapshots as [|p ps IH]; intros st Hh Hn.
  - cbn. rewrite slice_last_all by exact Hh. now destruct st.
  - cbn [length] in *. change (saveAll (p :: ps) st)
      with (saveAll ps (saveToHistory p st)).
    change (Nat.iter (S (length ps)) undo (saveAll ps (saveToHistory p st)))
      with (undo (Nat.iter (length ps) undo
                    (saveAll ps (saveToHistory p st)))).
    rewrite IH by (try apply saveToHistory_history_length; lia).
    unfold saveToHistory at 1 2. cbn [history setPages setHistory].
    rewrite slice_last_snoc by lia. rewrite slice_last_twice.
    replace (Nat.min (20 - length ps - 1) 19) with (20 - S (length ps))
      by lia.
    unfold undo. cbn [history setHistory].
    rewrite last_elem_snoc, slice_init_snoc. now destruct st.
Qed.

Lemma saveAll_app pre post st :
  saveAll (pre ++ post) st = saveAll post (saveAll pre st).
Proof. unfold saveAll. apply fold_left_app. Qed.

Lemma last_cons_default (A : Type) (x d : A) (l : list A) :
  last (x :: l) d = last l x.
Proof.
  revert x d. induction l as [|y l IH]; intros x d; [reflexivity|].
  change (last (x :: y :: l) d) with (last (y :: l) d).
  rewrite IH. symmetry. apply IH.
Qed.

Lemma saveAll_pages snapshots st :
  pages (saveAll snapshots st) = last snapshots (pages st).
Proof.
  revert st. induction snapshots as [|p ps IH]; intros st; [reflexivity|].
  change (saveAll (p :: ps) st) with (saveAll ps (saveToHistory p st)).
  rewrite IH, last_cons_default. reflexivity.
Qed.

Lemma saveAll_history_length snapshots st :
  length (history st) <= 20 -> length (history (saveAll snapshots st)) <= 20.
Proof.
  revert st. induction snapshots as [|p ps IH]; intros st H; [exact H|].
  change (saveAll (p :: ps) st) with (saveAll ps (saveToHistory p st)).
  apply IH, saveToHistory_history_length.
Qed.

Lemma iter_undo_fixed k st : history st = [] -> Nat.iter k undo st = st.
Proof.
  intros H. induction k as [|k IH]; [reflexivity|].
  change (Nat.iter (S k) undo st) with (undo (Nat.iter k undo st)).
  rewrite IH. now apply undo_empty.
Qed.

Lemma iter_add (A : Type) (f : A -> A) (a b : nat) (x : A) :
  Nat.iter (a + b) f x = Nat.iter a f (Nat.iter b f x).
Proof.
  induction a as [|a IH]; [reflexivity|].
  change (Nat.iter (S a + b) f x) with (f (Nat.iter (a + b) f x)).
  change (Nat.iter (S a) f (Nat.iter b f x))
    with (f (Nat.iter a f (Nat.iter b f x))).
  now rewrite IH.
Qed.

End HistoryDepth.

(** X3. In every state the component reaches, the history holds at most 20
    snapshots. *)
Theorem history_never_exceeds_20 (e : Engine) (events : list Event)
    (st : State) :
  run e events initialState = Some st -> length (history st) <= 20.
Proof.
  assert (G : forall evs s s', length (history s) <= 20 ->
                run e evs s = Some s' -> length (history s') <= 20).
  { induction evs as [|ev evs IH]; intros s s' H; cbn [run].
    - now intros [= <-].
    - destruct (step e ev s) as [s1|] eqn:E; [|discriminate].
      apply IH. exact (historyBounded_step e ev s s1 H E). }
  apply G. cbn. lia.
Qed.

Lemma history_never_exceeds_20_witness :
  length (history (handleInsertBlank engine0 now0 (loadedState 2))) <= 20.
Proof.
  apply (history_never_exceeds_20 engine0
           [FileChange (Some pdfFile) (Loaded 2) rnd0; InsertBlank now0]).
  reflexivity.
Defined.

(** X4. Undo goes back through several mutations: after up to 20 mutations in
    a row, as many [undo]s give the state from before the first of them,
    but for its history, of which the oldest snapshots may be gone. *)
Theorem undo_reverts_up_to_20_mutations (snapshots : list (list PageItem))
    (st : State) :
  length (history st) <= 20 ->
  length snapshots <= 20 ->
  let st' := Nat.iter (length snapshots) undo (saveAll snapshots st) in
  pages st' = pages st /\
  history st' = JS.slice_last (20 - length snapshots) (history st) /\
  st' = setHistory (history st') st.
Proof.
  intros Hh Hn. cbn zeta. rewrite (undo_saveAll snapshots st Hh Hn).
  repeat split.
Qed.

Lemma undo_reverts_up_to_20_mutations_witness :
  pages (Nat.iter 2 undo
           (saveAll [[]; [blankPage now0 0]] (loadedState 3)))
  = pages (loadedState 3).
Proof.
  exact (proj1 (undo_reverts_up_to_20_mutations [[]; [blankPage now0 0]]
                  (loadedState 3) ltac:(vm_compute; lia)
                  ltac:(vm_compute; lia))).
Defined.

(** X5. Older mutations are out of reach: after more than 20 mutations in a
    row, 20 [undo]s give the pages that were current 20 mutations ago, and
    any further [undo] leaves them there. *)
Theorem undo_reaches_20_mutations_back (earlier recent : list (list PageItem))
    (st : State) (extra : nat) :
  length (history st) <= 20 ->
  length recent = 20 ->
  let st' := Nat.iter (extra + 20) undo (saveAll (earlier ++ recent) st) in
  pages st' = last earlier (pages st) /\ history st' = [].
Proof.
  intros Hh Hr. cbn zeta. rewrite iter_add, saveAll_app.
  pose proof (undo_saveAll recent (saveAll earlier st)
                (saveAll_history_length earlier st Hh) ltac:(lia)) as U.
  rewrite Hr in U. rewrite U, Nat.sub_diag.
  assert (E : JS.slice_last 0 (history (saveAll earlier st)) = []).
  { unfold JS.slice_last. rewrite Nat.sub_0_r. apply skipn_all. }
  rewrite E, iter_undo_fixed by reflexivity.
  cbn [pages history setHistory]. split; [apply saveAll_pages|reflexivity].
Qed.

Lemma undo_reaches_20_mutations_back_witness :
  pages (Nat.iter (3 + 20) undo
           (saveAll ([[blankPage now0 0]] ++ repeat [] 20) (loadedState 1)))
  = [blankPage now0 0].
Proof.
  exact (proj1 (undo_reaches_20_mutations_back [[blankPage now0 0]]
                  (repeat [] 20) (loadedState 1) 3 ltac:(vm_compute; lia)
                  eq_refl)).
Defined.

(** ** Numbers in texts *)

Section Digits.

Lemma show_digits (d : Decimal.uint) :
  Forall (fun c => isDigit c = true) (chars (NilEmpty.string_of_uint d)).
Proof.
  induction d; cbn [NilEmpty.string_of_uint chars]; constructor;
    solve [reflexivity | assumption].
Qed.

Lemma to_uint_not_nil (n : N) : N.to_uint n <> Decimal.Nil.
Proof.
  destruct n as [|p]; [discriminate|].
  apply DecimalPos.Unsigned.to_uint_nonnil.
Qed.

Lemma digit_not_white_space c : isDigit c = true -> JS.is_white_space c = false.
Proof.
  destruct c as [[] [] [] [] [] [] [] []]; try discriminate; reflexivity.
Qed.

Lemma digit_not_hyphen c : isDigit c = true -> Ascii.eqb c "-" = false.
Proof.
  destruct c as [[] [] [] [] [] [] [] []]; try discriminate; reflexivity.
Qed.

Lemma digit_not_comma c : isDigit c = true -> Ascii.eqb c "," = false.
Proof.
  destruct c as [[] [] [] [] [] [] [] []]; try discriminate; reflexivity.
Qed.

Lemma includes_none sep s :
  Forall (fun c => Ascii.eqb c sep = false) (chars s) ->
  JS.includes sep s = false.
Proof.
  induction s as [|c s IH]; cbn [chars JS.includes]; intros H; [reflexivity|].
  inversion H as [|? ? Hc Hs]; subst. now rewrite Hc, (IH Hs).
Qed.

Lemma trim_end_plain s :
  Forall (fun c => JS.is_white_space c = false) (chars s) -> JS.trim_end s = s.
Proof.
  induction s as [|c s IH]; cbn [chars JS.trim_end]; intros H; [reflexivity|].
  inversion H as [|? ? Hc Hs]; subst. rewrite (IH Hs), Hc. now destruct s.
Qed.

Lemma trim_plain s :
  Forall (fun c => JS.is_white_space c = false) (chars s) -> JS.trim s = s.
Proof.
  intros H. unfold JS.trim.
  assert (E : JS.trim_start s = s).
  { destruct s as [|c s]; [reflexivity|]. cbn [JS.trim_start chars] in *.
    inversion H as [|? ? Hc Hs]; subst. now rewrite Hc. }
  rewrite E. now apply trim_end_plain.
Qed.

Lemma chars_append a b : chars (a ++ b)%string = chars a ++ chars b.
Proof. induction a as [|c a IH]; cbn; [reflexivity|]. now rewrite IH. Qed.

(** Reading on from a positive value. *)
Lemma parse_digits_from_pos (d : Decimal.uint) : forall acc,
  JS.parse_digits 10 (NilEmpty.string_of_uint d) (Some (Zpos acc)) =
  Some (Zpos (Pos.of_uint_acc d acc)).
Proof.
  induction d; intros acc;
    cbn [NilEmpty.string_of_uint JS.parse_digits Pos.of_uint_acc];
    [reflexivity|..];
    match goal with
    | |- context [JS.digit_value ?c] =>
        let v := eval vm_compute in (JS.digit_value c) in
        change (JS.digit_value c) with v
    end;
    cbn [Z.ltb Z.compare Pos.compare Pos.compare_cont];
    rewrite <- IHd; do 2 f_equal; lia.
Qed.

(** Reading on from 0, which leading zeros leave. *)
Lemma parse_digits_from_zero (d : Decimal.uint) :
  JS.parse_digits 10 (NilEmpty.string_of_uint d) (Some 0%Z) =
  Some (Z.of_N (Pos.of_uint d)).
Proof.
  induction d;
    cbn [NilEmpty.string_of_uint JS.parse_digits Pos.of_uint];
    [reflexivity|..];
    match goal with
    | |- context [JS.digit_value ?c] =>
        let v := eval vm_compute in (JS.digit_value c) in
        change (JS.digit_value c) with v
    end;
    cbn [Z.ltb Z.compare Pos.compare Pos.compare_cont Z.mul Z.add];
    solve [assumption | apply parse_digits_from_pos].
Qed.

Lemma parse_digits_start (d : Decimal.uint) :
  d <> Decimal.Nil ->
  JS.parse_digits 10 (NilEmpty.string_of_uint d) None =
  JS.parse_digits 10 (NilEmpty.string_of_uint d) (Some 0%Z).
Proof. destruct d; [congruence|..]; reflexivity. Qed.

Lemma parseInt_digits (d : Decimal.uint) :
  d <> Decimal.Nil ->
  JS.parseInt (NilEmpty.string_of_uint d) =
  option_map (Z.mul 1)
    (JS.parse_digits 10 (NilEmpty.string_of_uint d) None).
Proof.
  destruct d as [|d|d|d|d|d|d|d|d|d|d]; [congruence|..]; intros _;
    try reflexivity.
  destruct d; reflexivity.
Qed.

(** [parseInt] reads a decimal rendering back. *)
Lemma parseInt_show (n : N) : JS.parseInt (JS.show n) = Some (Z.of_N n).
Proof.
  unfold JS.show. pose proof (to_uint_not_nil n) as H.
  rewrite parseInt_digits, parse_digits_start, parse_digits_from_zero by exact H.
  cbn [option_map]. f_equal.
  change (Pos.of_uint (N.to_uint n)) with (N.of_uint (N.to_uint n)).
  rewrite DecimalN.Unsigned.of_to. lia.
Qed.

Lemma show_plain (n : N) :
  Forall (fun c => isDigit c = true) (chars (JS.show n)).
Proof. apply show_digits. Qed.

Lemma show_injective (a b : N) : JS.show a = JS.show b -> a = b.
Proof.
  unfold JS.show. intros E. apply DecimalN.Unsigned.to_uint_inj.
  pose proof (NilEmpty.usu (N.to_uint a)) as Ha.
  pose proof (NilEmpty.usu (N.to_uint b)) as Hb.
  rewrite E in Ha. congruence.
Qed.

End Digits.

(** ** What a range text selects *)

Section RangeSelection.

Lemma split_not_nil sep s : JS.split sep s <> [].
Proof.
  destruct s as [|c s]; cbn; [discriminate|].
  destruct (Ascii.eqb c sep); [discriminate|].
  destruct (JS.split sep s); discriminate.
Qed.

Lemma split_append sep a b :
  JS.split sep (a ++ String sep b)%string = JS.split sep a ++ JS.split sep b.
Proof.
  induction a as [|c a IH]; cbn.
  - now rewrite Ascii.eqb_refl.
  - destruct (Ascii.eqb c sep); rewrite IH; [reflexivity|].
    pose proof (split_not_nil sep a) as H.
    destruct (JS.split sep a); [contradiction|reflexivity].
Qed.

(** What a text made of one page number selects. *)
Lemma parseDeleteRanges_number e (k : N) (n : nat) :
  parseDeleteRanges e (JS.show k) n =
  Some (if ((1 <=? Z.of_N k) && (Z.of_N k <=? Z.of_nat n))%Z
        then [Z.of_N k - 1]%Z else []).
Proof.
  pose proof (show_plain k) as D.
  rewrite parseDeleteRanges_one_part.
  2:{ apply includes_none. eapply Forall_impl; [|exact D].
      apply digit_not_comma. }
  2:{ apply trim_plain. eapply Forall_impl; [|exact D].
      apply digit_not_white_space. }
  unfold addPart. rewrite includes_none.
  2:{ eapply Forall_impl; [|exact D]. apply digit_not_hyphen. }
  rewrite parseInt_show. cbn [JS.set_add JS.set_has existsb length Z.of_nat].
  change (0 <? Z.pos (setCapacity e))%Z with true.
  cbn [app filter]. f_equal.
  destruct (Z.leb_spec 1 (Z.of_N k)), (Z.leb_spec (Z.of_N k) (Z.of_nat n)),
    (Z.leb_spec 0 (Z.of_N k - 1)), (Z.ltb_spec (Z.of_N k - 1) (Z.of_nat n));
    cbn [andb]; try reflexivity; lia.
Qed.

Lemma hyphenated_plain (a b : N) (bad : ascii -> bool) :
  (forall c, isDigit c = true -> bad c = false) -> bad "-"%char = false ->
  Forall (fun c => bad c = false) (chars (JS.show a ++ "-" ++ JS.show b)%string).
Proof.
  intros Hd Hh. rewrite chars_append. apply Forall_app. split.
  - eapply Forall_impl; [|apply show_plain]. exact Hd.
  - cbn [String.append chars]. constructor; [exact Hh|].
    eapply Forall_impl; [|apply show_plain]. exact Hd.
Qed.

Lemma parts_of_hyphenated (a b : N) :
  map JS.trim (JS.split "," (JS.show a ++ "-" ++ JS.show b)%string) =
  [(JS.show a ++ "-" ++ JS.show b)%string].
Proof.
  rewrite split_no_separator.
  - cbn [map]. f_equal. apply trim_plain.
    apply (hyphenated_plain a b JS.is_white_space);
      [apply digit_not_white_space|reflexivity].
  - apply includes_none.
    apply (hyphenated_plain a b (fun c => Ascii.eqb c ","));
      [apply digit_not_comma|reflexivity].
Qed.

Lemma partSelects_hyphenated (a b : N) (i : Z) :
  partSelects (JS.show a ++ "-" ++ JS.show b)%string i <->
  (Z.min (Z.of_N a) (Z.of_N b) <= i + 1 <= Z.max (Z.of_N a) (Z.of_N b))%Z.
Proof.
  unfold partSelects. cbn [String.append].
  rewrite includes_append, split_at_separator, split_no_separator.
  - cbn [map]. rewrite !parseInt_show. reflexivity.
  - apply includes_none. eapply Forall_impl; [|apply show_plain].
    apply digit_not_hyphen.
  - apply includes_none. eapply Forall_impl; [|apply show_plain].
    apply digit_not_hyphen.
Qed.

Lemma addRange_returns e lo hi :
  JS.isSafeInteger lo = true -> JS.isSafeInteger hi = true ->
  (hi - lo + 1 <= Z.pos (setCapacity e))%Z ->
  exists found, addRange e lo hi [] = Some found.
Proof.
  intros Hl Hh Hc. unfold addRange. rewrite Hl, Hh. cbn [andb negb].
  destruct (Z.ltb_spec (Z.pos (setCapacity e)) (hi - lo + 1)); [lia|].
  apply rangeLoop_fits. rewrite length_seq. cbn [length]. lia.
Qed.

End RangeSelection.

(** X6. When [parseDeleteRanges] gives a result, an index is in it exactly
    when it is within the sequence and some comma-separated part of the
    text, trimmed, selects it: a plain part by its number, a hyphenated
    part by the numbers between its two ends; parts that do not read as
    numbers select nothing.  The result lists no index twice. *)
Theorem parseDeleteRanges_selects (e : Engine) (input : string)
    (pagesLength : nat) (found : list Z) (i : Z) :
  parseDeleteRanges e input pagesLength = Some found ->
  (In i found <->
   (0 <= i < Z.of_nat pagesLength)%Z /\
   exists part,
     In part (map JS.trim (JS.split "," input)) /\ partSelects part i) /\
  NoDup found.
Proof.
  intros H. destruct (parseDeleteRanges_spec e input pagesLength found H).
  auto.
Qed.

Lemma parseDeleteRanges_selects_witness :
  In 2%Z [0; 2]%Z <->
  (0 <= 2 < Z.of_nat 5)%Z /\
  exists part,
    In part (map JS.trim (JS.split "," "1, 3")) /\ partSelects part 2%Z.
Proof.
  exact (proj1 (parseDeleteRanges_selects engine0 "1, 3" 5 [0; 2]%Z 2%Z
                  eq_refl)).
Defined.

(** X7. Two range texts joined by a comma select what either selects,
    where [parseDeleteRanges] gives a result for each and for the joined
    text. *)
Theorem parseDeleteRanges_comma (e : Engine) (a b : string)
    (pagesLength : nat) (fa fb fab : list Z) (i : Z) :
  parseDeleteRanges e a pagesLength = Some fa ->
  parseDeleteRanges e b pagesLength = Some fb ->
  parseDeleteRanges e (a ++ "," ++ b)%string pagesLength = Some fab ->
  (In i fab <-> In i fa \/ In i fb).
Proof.
  intros Ha Hb Hab.
  destruct (parseDeleteRanges_spec _ _ _ _ Ha) as [_ Ma].
  destruct (parseDeleteRanges_spec _ _ _ _ Hb) as [_ Mb].
  destruct (parseDeleteRanges_spec _ _ _ _ Hab) as [_ Mab].
  rewrite Ma, Mb, Mab. cbn [String.append].
  rewrite split_append, map_app.
  split.
  - intros (Hi & part & Hp & Hs). apply in_app_iff in Hp.
    destruct Hp; [left|right]; eauto.
  - intros [(Hi & part & Hp & Hs)|(Hi & part & Hp & Hs)];
      (split; [exact Hi|]); exists part; rewrite in_app_iff; auto.
Qed.

Lemma parseDeleteRanges_comma_witness :
  In 3%Z [0; 1; 3]%Z <-> In 3%Z [0; 1]%Z \/ In 3%Z [3]%Z.
Proof.
  exact (parseDeleteRanges_comma engine0 "1-2" "4" 5 [0; 1]%Z [3]%Z
           [0; 1; 3]%Z 3%Z eq_refl eq_refl eq_refl).
Defined.

(** X8. A text that is one page number selects that page when the
    sequence has it and nothing otherwise.  A text [a-b] of two page
    numbers below 2^53 that are no further apart than the engine's sets
    hold gives a result, which is the pages from the smaller to the larger
    number that the sequence has. *)
Theorem parseDeleteRanges_of_numbers (e : Engine) (a b : N)
    (pagesLength : nat) :
  (Z.of_N a < 2 ^ 53)%Z -> (Z.of_N b < 2 ^ 53)%Z ->
  (Z.abs (Z.of_N a - Z.of_N b) < Z.pos (setCapacity e))%Z ->
  parseDeleteRanges e (JS.show a) pagesLength =
    Some (if ((1 <=? Z.of_N a) && (Z.of_N a <=? Z.of_nat pagesLength))%Z
          then [Z.of_N a - 1]%Z else []) /\
  exists found,
    parseDeleteRanges e (JS.show a ++ "-" ++ JS.show b)%string pagesLength
    = Some found /\
    forall i,
      In i found <->
      (0 <= i < Z.of_nat pagesLength)%Z /\
      (Z.min (Z.of_N a) (Z.of_N b) <= i + 1 <= Z.max (Z.of_N a) (Z.of_N b))%Z.
Proof.
  intros Ha Hb Hc. split; [apply parseDeleteRanges_number|].
  assert (R : exists s,
             addPart e [] (JS.show a ++ "-" ++ JS.show b)%string = Some s).
  { unfold addPart. cbn [String.append].
    rewrite includes_append, split_at_separator, split_no_separator.
    - cbn [map]. rewrite !parseInt_show. apply addRange_returns.
      + unfold JS.isSafeInteger.
        apply andb_true_iff. rewrite !Z.ltb_lt. lia.
      + unfold JS.isSafeInteger.
        apply andb_true_iff. rewrite !Z.ltb_lt. lia.
      + lia.
    - apply includes_none. eapply Forall_impl; [|apply show_plain].
      apply digit_not_hyphen.
    - apply includes_none. eapply Forall_impl; [|apply show_plain].
      apply digit_not_hyphen. }
  destruct R as [s R].
  assert (P : parseDeleteRanges e (JS.show a ++ "-" ++ JS.show b)%string
                pagesLength
              = Some (filter (fun i => (0 <=? i)%Z
                                       && (i <? Z.of_nat pagesLength)%Z) s)).
  { unfold parseDeleteRanges.
    pose proof (parts_of_hyphenated a b) as Q.
    cbn [String.append] in Q |- *. rewrite Q. cbn [fold_left partStep].
    cbn [String.append] in R. now rewrite R. }
  eexists. split; [exact P|]. intros i.
  destruct (parseDeleteRanges_spec _ _ _ _ P) as [_ M]. rewrite M.
  rewrite parts_of_hyphenated. cbn [In]. split.
  - intros (Hi & part & [<-|[]] & Hs). split; [exact Hi|].
    now apply partSelects_hyphenated.
  - intros (Hi & Hs). split; [exact Hi|]. eexists. split; [left; reflexivity|].
    now apply partSelects_hyphenated.
Qed.

Lemma parseDeleteRanges_of_numbers_witness :
  parseDeleteRanges engine0 (JS.show 3) 5 = Some [2%Z].
Proof.
  exact (proj1 (parseDeleteRanges_of_numbers engine0 3 4 5
                  ltac:(vm_compute; reflexivity) ltac:(vm_compute; reflexivity)
                  ltac:(vm_compute; reflexivity))).
Defined.

(** ** Deleting pages *)

Section Deleting.
Context {A : Type}.

Lemma filter_idx_from_combine (keep : nat -> bool) (l : list A) : forall i,
  JS.filter_idx_from keep i l =
  map snd (filter (fun ip => keep (fst ip)) (combine (seq i (length l)) l)).
Proof.
  induction l as [|x l IH]; intros i; [reflexivity|].
  cbn [JS.filter_idx_from length seq combine filter fst].
  destruct (keep i); cbn [map snd]; now rewrite IH.
Qed.

Lemma filter_idx_from_length (keep : nat -> bool) (l : list A) : forall i,
  length (JS.filter_idx_from keep i l) =
  length (filter keep (seq i (length l))).
Proof.
  induction l as [|x l IH]; intros i; [reflexivity|].
  cbn [JS.filter_idx_from length seq filter].
  destruct (keep i); cbn [length]; now rewrite IH.
Qed.

Lemma filter_idx_from_all (keep : nat -> bool) (l : list A) : forall i,
  (forall idx, i <= idx -> keep idx = true) ->
  JS.filter_idx_from keep i l = l.
Proof.
  induction l as [|x l IH]; intros i H; [reflexivity|].
  cbn [JS.filter_idx_from]. rewrite (H i) by lia. f_equal.
  apply IH. intros idx Hi. apply H. lia.
Qed.

Lemma filter_idx_from_one (keep : nat -> bool) (gone : nat) (l : list A) :
  (forall idx, keep idx = negb (idx =? gone)) ->
  forall i, i <= gone ->
  JS.filter_idx_from keep i l = removeAt (gone - i) l.
Proof.
  intros Hk. induction l as [|x l IH]; intros i Hi.
  - unfold removeAt. now rewrite firstn_nil, skipn_nil.
  - cbn [JS.filter_idx_from]. rewrite Hk.
    destruct (Nat.eqb_spec i gone) as [->|Hne]; cbn [negb].
    + rewrite Nat.sub_diag. unfold removeAt. cbn [firstn skipn app].
      apply filter_idx_from_all. intros idx Hidx. rewrite Hk.
      destruct (Nat.eqb_spec idx gone); [lia|reflexivity].
    + rewrite IH by lia.
      replace (gone - i) with (S (gone - S i)) by lia. reflexivity.
Qed.

Lemma filter_complement_length (f : A -> bool) (l : list A) :
  length (filter f l) + length (filter (fun x => negb (f x)) l) = length l.
Proof.
  induction l as [|x l IH]; [reflexivity|].
  cbn [filter]. destruct (f x); cbn [negb length]; lia.
Qed.

Lemma filter_keeps_all (f : A -> bool) (l : list A) :
  (forall x, In x l -> f x = true) -> filter f l = l.
Proof.
  induction l as [|x l IH]; intros H; [reflexivity|].
  cbn [filter]. rewrite (H x) by now left. f_equal.
  apply IH. intros y Hy. apply H. now right.
Qed.

Lemma removeAt_middle (l1 l2 : list A) (x : A) :
  removeAt (length l1) (l1 ++ x :: l2) = l1 ++ l2.
Proof.
  unfold removeAt.
  rewrite firstn_app, skipn_app, firstn_all, Nat.sub_diag.
  rewrite (skipn_all2 (n := S (length l1))) by lia.
  replace (S (length l1) - length l1) with 1 by lia.
  cbn [firstn skipn app]. now rewrite app_nil_r.
Qed.

End Deleting.

Lemma selected_count (toDelete : list Z) (n : nat) :
  NoDup toDelete ->
  (forall z, In z toDelete -> (0 <= z < Z.of_nat n)%Z) ->
  length (filter (fun i => JS.set_has (Z.of_nat i) toDelete) (seq 0 n)) =
  length toDelete.
Proof.
  intros Hnd Hin. rewrite <- (length_map Z.of_nat).
  apply Permutation_length, NoDup_Permutation; [|exact Hnd|].
  - apply Finite.Injective_map_NoDup.
    + intros a b. apply Nat2Z.inj.
    + apply NoDup_filter, seq_NoDup.
  - intros z. rewrite in_map_iff. split.
    + intros (i & <- & Hi). apply filter_In in Hi. now apply set_has_In.
    + intros Hz. exists (Z.to_nat z). pose proof (Hin z Hz).
      split; [lia|]. apply filter_In. split; [apply in_seq; lia|].
      apply set_has_In. now replace (Z.of_nat (Z.to_nat z)) with z by lia.
Qed.

(** X9. Where [parseDeleteRanges] gives a result, bulk deletion removes the
    pages at the selected indices and keeps the others in their order, so
    the sequence gets shorter by the number of selected indices.  When the
    text selects nothing the state stays as it is (no snapshot is taken and
    the text is kept); otherwise the text is cleared and the pages from
    before are the newest snapshot. *)
Theorem bulk_delete_removes_selection (e : Engine) (st : State)
    (toDelete : list Z) :
  parseDeleteRanges e (deleteInput st) (length (pages st)) = Some toDelete ->
  exists st',
    handleBulkDelete e st = Some st' /\
    pages st' =
      map snd
        (filter (fun ip => negb (JS.set_has (Z.of_nat (fst ip)) toDelete))
                (combine (seq 0 (length (pages st))) (pages st))) /\
    length (pages st') + length toDelete = length (pages st) /\
    match toDelete with
    | [] => st' = st
    | _ :: _ =>
        deleteInput st' = "" /\
        history st' = JS.slice_last 19 (history st) ++ [pages st] /\
        pages (undo st') = pages st
    end.
Proof.
  intros Hparse.
  set (keep := fun idx => negb (JS.set_has (Z.of_nat idx) toDelete)).
  assert (Hs : exists st', handleBulkDelete e st = Some st' /\
                 pages st' = JS.filter_idx keep (pages st) /\
                 match toDelete with
                 | [] => st' = st
                 | _ :: _ =>
                     deleteInput st' = "" /\
                     history st' = JS.slice_last 19 (history st) ++ [pages st]
                     /\ pages (undo st') = pages st
                 end).
  { unfold handleBulkDelete. rewrite Hparse. subst keep.
    destruct toDelete as [|i rest].
    - exists st. split; [reflexivity|]. split; [|reflexivity].
      symmetry. apply filter_idx_from_all. reflexivity.
    - eexists. split; [reflexivity|]. split; [reflexivity|].
      split; [reflexivity|]. split; [reflexivity|].
      rewrite undo_pages_setDeleteInput, undo_saveToHistory. reflexivity. }
  destruct Hs as (st' & E & Hp & Hm). exists st'.
  split; [exact E|]. split; [rewrite Hp; apply (filter_idx_from_combine keep)|].
  split; [|exact Hm].
  destruct (parseDeleteRanges_spec _ _ _ _ Hparse) as [Hnd M].
  rewrite Hp. unfold JS.filter_idx. rewrite filter_idx_from_length.
  rewrite <- (selected_count toDelete (length (pages st))).
  - rewrite Nat.add_comm.
    pose proof (filter_complement_length
                  (fun i => JS.set_has (Z.of_nat i) toDelete)
                  (seq 0 (length (pages st)))) as C.
    rewrite length_seq in C. exact C.
  - exact Hnd.
  - intros z Hz. now apply M in Hz.
Qed.

Lemma bulk_delete_removes_selection_witness :
  exists st',
    handleBulkDelete engine0 (setDeleteInput "1,3" (loadedState 4))
    = Some st' /\
    length (pages st') + 2 = 4.
Proof.
  destruct (bulk_delete_removes_selection engine0
              (setDeleteInput "1,3" (loadedState 4)) [0; 2]%Z eq_refl)
    as (st' & E & _ & L & _).
  exists st'. split; [exact E|exact L].
Defined.

(** X10. Typing one page number [k] and deleting removes the [k]-th page and
    nothing else when the sequence has a [k]-th page, and changes nothing
    (beyond the text typed) when it has not, on every engine. *)
Theorem bulk_delete_one_page (e : Engine) (k : N) (st : State) :
  let typed := setDeleteInput (JS.show k) st in
  if ((1 <=? Z.of_N k) && (Z.of_N k <=? Z.of_nat (length (pages st))))%Z
  then exists st',
         handleBulkDelete e typed = Some st' /\
         pages st' = removeAt (N.to_nat k - 1) (pages st) /\
         deleteInput st' = "" /\
         pages (undo st') = pages st
  else handleBulkDelete e typed = Some typed.
Proof.
  cbn zeta. unfold handleBulkDelete.
  cbn [deleteInput pages setDeleteInput].
  rewrite parseDeleteRanges_number.
  destruct ((1 <=? Z.of_N k) && (Z.of_N k <=? Z.of_nat (length (pages st))))%Z
    eqn:E; [|reflexivity].
  apply andb_true_iff in E. destruct E as [E1 E2].
  apply Z.leb_le in E1, E2.
  eexists. split; [reflexivity|].
  split; [|split; [reflexivity|]].
  - cbn [pages setDeleteInput saveToHistory setPages].
    unfold JS.filter_idx.
    rewrite (filter_idx_from_one _ (N.to_nat k - 1)); [|intros idx|lia].
    + now rewrite Nat.sub_0_r.
    + cbn [JS.set_has existsb]. rewrite orb_false_r. f_equal.
      destruct (Z.eqb_spec (Z.of_nat idx) (Z.of_N k - 1)),
        (Nat.eqb_spec idx (N.to_nat k - 1)); try reflexivity; lia.
  - rewrite undo_pages_setDeleteInput, undo_saveToHistory. reflexivity.
Qed.

(** X11. The delete button of a page removes that page and keeps the others in
    their order, provided the identifiers of the sequence are distinct. *)
Theorem delete_click_removes_page (l1 l2 : list PageItem) (p : PageItem)
    (st : State) :
  pages st = l1 ++ p :: l2 ->
  NoDup (map id (pages st)) ->
  let st' := onDeleteClick (id p) st in
  pages st' = l1 ++ l2 /\
  pages st' = removeAt (length l1) (pages st) /\
  pages (undo st') = pages st.
Proof.
  intros E Hnd. cbn zeta.
  assert (Hp : pages (onDeleteClick (id p) st) = l1 ++ l2).
  { unfold onDeleteClick. cbn [pages saveToHistory setPages]. rewrite E in *.
    rewrite map_app in Hnd. cbn [map] in Hnd.
    apply NoDup_remove_2 in Hnd. rewrite in_app_iff in Hnd.
    rewrite filter_app. cbn [filter]. rewrite String.eqb_refl. cbn [negb].
    rewrite !filter_keeps_all; [reflexivity| |].
    - intros q Hq. destruct (String.eqb_spec (id q) (id p)) as [Eq|]; auto.
      exfalso. apply Hnd. right. rewrite <- Eq. now apply in_map.
    - intros q Hq. destruct (String.eqb_spec (id q) (id p)) as [Eq|]; auto.
      exfalso. apply Hnd. left. rewrite <- Eq. now apply in_map. }
  split; [exact Hp|]. split.
  - rewrite Hp, E. symmetry. apply removeAt_middle.
  - unfold onDeleteClick. now rewrite undo_saveToHistory.
Qed.

Lemma delete_click_removes_page_witness :
  pages (onDeleteClick (id (originalPage rnd0 1)) (loadedState 3)) =
  [originalPage rnd0 0] ++ [originalPage rnd0 2].
Proof.
  refine (proj1 (delete_click_removes_page [originalPage rnd0 0]
                   [originalPage rnd0 2] (originalPage rnd0 1)
                   (loadedState 3) eq_refl _)).
  vm_compute. repeat constructor; cbn; intuition discriminate.
Defined.

(** ** Where blanks go *)

Section BlankPlacement.

Lemma blanks_are_blank now m :
  Forall (fun p => type p = blank) (JS.array_from m (blankPage now)).
Proof. apply Forall_array_from. reflexivity. Qed.

Lemma contentPages_app l1 l2 :
  contentPages (l1 ++ l2) = contentPages l1 ++ contentPages l2.
Proof. unfold contentPages. apply filter_app. Qed.

Lemma contentPages_blanks l :
  Forall (fun p => type p = blank) l -> contentPages l = [].
Proof.
  induction 1 as [|p l Hp Hl IH]; [reflexivity|].
  unfold contentPages in *. cbn [filter]. now rewrite Hp.
Qed.

Lemma contentPages_splice_insert i blanks l :
  Forall (fun p => type p = blank) blanks ->
  contentPages (JS.splice_insert i blanks l) = contentPages l.
Proof.
  intros H. unfold JS.splice_insert.
  rewrite !contentPages_app, (contentPages_blanks blanks H).
  cbn [app]. rewrite <- contentPages_app. now rewrite firstn_skipn.
Qed.

End BlankPlacement.

Lemma to_length_when_ok e c :
  insertFails e c = false ->
  Z.to_nat (JS.to_length (count c)) = Z.to_nat (count c).
Proof.
  unfold insertFails, JS.to_length, JS.maxArrayLength.
  rewrite orb_false_iff, !Z.ltb_ge. lia.
Qed.

Lemma handleInsertBlank_inserts e now st :
  insertFails e (insertConfig st) = false ->
  pages (handleInsertBlank e now st) =
  JS.splice_insert (insertTargetIdx (length (pages st)) (insertConfig st))
    (JS.array_from (Z.to_nat (count (insertConfig st))) (blankPage now))
    (pages st).
Proof.
  intros H. rewrite handleInsertBlank_pages by exact H.
  now rewrite (to_length_when_ok e).
Qed.

(** X12. Inserting blanks fails for a count past what the engine spreads
    or past the longest array, and then the state stays as it is.
    Otherwise it adds [count] descriptors when [count] is positive and none
    when it is not, all of them blank, and leaves the pages that are not
    blank as they were, in their order; [undo] takes the insertion back. *)
Theorem insert_blank_keeps_content (e : Engine) (now : nat -> N)
    (st : State) :
  let st' := handleInsertBlank e now st in
  if insertFails e (insertConfig st) then st' = st
  else
    length (pages st') =
      length (pages st) + Z.to_nat (count (insertConfig st)) /\
    contentPages (pages st') = contentPages (pages st) /\
    Permutation (pages st')
      (JS.array_from (Z.to_nat (count (insertConfig st))) (blankPage now)
       ++ pages st) /\
    history st' = JS.slice_last 19 (history st) ++ [pages st] /\
    pages (undo st') = pages st.
Proof.
  cbn zeta. destruct (insertFails e (insertConfig st)) eqn:F.
  - now apply handleInsertBlank_fails.
  - rewrite (handleInsertBlank_inserts e now st F).
    split; [|split; [|split; [|split]]].
    + rewrite splice_insert_length. unfold JS.array_from.
      now rewrite length_map, length_seq.
    + apply contentPages_splice_insert, blanks_are_blank.
    + unfold JS.splice_insert.
      eapply Permutation_trans; [apply Permutation_app_swap_app|].
      rewrite firstn_skipn. apply Permutation_refl.
    + now rewrite handleInsertBlank_ok.
    + rewrite handleInsertBlank_ok by exact F.
      now rewrite undo_saveToHistory.
Qed.

(** X13. Where the insertion does not fail and the target page [t] is
    within the sequence, the blanks go right before page [t] or right after
    it, as the position says: the pages before the insertion point and
    those after it stay in place around the block of blanks. *)
Theorem insert_blank_at_target (e : Engine) (now : nat -> N) (st : State) :
  insertFails e (insertConfig st) = false ->
  (1 <= target (insertConfig st) <= Z.of_nat (length (pages st)))%Z ->
  let c := insertConfig st in
  let at_ := match position c with
             | before => Z.to_nat (target c) - 1
             | after => Z.to_nat (target c)
             end in
  let blanks := JS.array_from (Z.to_nat (count c)) (blankPage now) in
  pages (handleInsertBlank e now st) =
    firstn at_ (pages st) ++ blanks ++ skipn at_ (pages st) /\
  firstn at_ (pages (handleInsertBlank e now st)) = firstn at_ (pages st) /\
  skipn (at_ + length blanks) (pages (handleInsertBlank e now st)) =
    skipn at_ (pages st) /\
  at_ <= length (pages st).
Proof.
  intros F Ht. cbn zeta. rewrite (handleInsertBlank_inserts e now st F).
  set (at_ := match position (insertConfig st) with
              | before => Z.to_nat (target (insertConfig st)) - 1
              | after => Z.to_nat (target (insertConfig st))
              end).
  assert (E : insertTargetIdx (length (pages st)) (insertConfig st) = at_).
  { unfold insertTargetIdx, at_. destruct (position (insertConfig st)); lia. }
  assert (Hle : at_ <= length (pages st)).
  { unfold at_. destruct (position (insertConfig st)); lia. }
  rewrite E. unfold JS.splice_insert.
  set (blanks := JS.array_from _ _).
  assert (L : length (firstn at_ (pages st)) = at_)
    by (rewrite length_firstn; lia).
  split; [reflexivity|]. split; [|split; [|exact Hle]].
  - rewrite firstn_app, L, Nat.sub_diag. cbn [firstn].
    rewrite app_nil_r. rewrite <- L at 1. apply firstn_all.
  - rewrite app_assoc, skipn_app, length_app, L.
    replace (at_ + length blanks - (at_ + length blanks)) with 0 by lia.
    rewrite skipn_all2 by (rewrite length_app, L; lia). reflexivity.
Qed.

Lemma insert_blank_at_target_witness :
  pages (handleInsertBlank engine0 now0
           (onTargetChange "2" (loadedState 3))) =
  firstn 2 (pages (loadedState 3))
  ++ JS.array_from 1 (blankPage now0)
  ++ skipn 2 (pages (loadedState 3)).
Proof.
  exact (proj1 (insert_blank_at_target engine0 now0
                  (onTargetChange "2" (loadedState 3))
                  ltac:(vm_compute; reflexivity)
                  ltac:(vm_compute; split; discriminate))).
Defined.

(** X14. Where the insertion does not fail, a target page outside the
    sequence is clamped: a target below the first page puts the blanks in
    front of everything, a target past the last page puts them at the end,
    whatever the position. *)
Theorem insert_blank_clamps_target (e : Engine) (now : nat -> N)
    (st : State) :
  insertFails e (insertConfig st) = false ->
  let c := insertConfig st in
  let blanks := JS.array_from (Z.to_nat (count c)) (blankPage now) in
  ((target c <= 0)%Z ->
   pages (handleInsertBlank e now st) = blanks ++ pages st) /\
  ((Z.of_nat (length (pages st)) < target c)%Z ->
   pages (handleInsertBlank e now st) = pages st ++ blanks) /\
  insertTargetIdx (length (pages st)) c <= length (pages st).
Proof.
  intros F. cbn zeta. rewrite (handleInsertBlank_inserts e now st F).
  unfold JS.splice_insert. split; [|split].
  - intros H.
    replace (insertTargetIdx (length (pages st)) (insertConfig st)) with 0.
    + reflexivity.
    + unfold insertTargetIdx. destruct (position (insertConfig st)); lia.
  - intros H.
    replace (insertTargetIdx (length (pages st)) (insertConfig st))
      with (length (pages st)).
    + now rewrite firstn_all, skipn_all, app_nil_r.
    + unfold insertTargetIdx. destruct (position (insertConfig st)); lia.
  - unfold insertTargetIdx. destruct (position (insertConfig st)); lia.
Qed.

Lemma insert_blank_clamps_target_witness :
  pages (handleInsertBlank engine0 now0
           (onTargetChange "9" (loadedState 3))) =
  pages (loadedState 3) ++ JS.array_from 1 (blankPage now0).
Proof.
  exact (proj1 (proj2 (insert_blank_clamps_target engine0 now0
                         (onTargetChange "9" (loadedState 3))
                         ltac:(vm_compute; reflexivity)))
           ltac:(vm_compute; reflexivity)).
Defined.

(** ** Identifiers *)

Section Identifiers.

Lemma digits_then_hyphen (a b x y : string) :
  Forall (fun c => isDigit c = true) (chars a) ->
  Forall (fun c => isDigit c = true) (chars b) ->
  (a ++ String "-" x)%string = (b ++ String "-" y)%string ->
  a = b /\ x = y.
Proof.
  revert b. induction a as [|c a IH]; intros [|c' b] Ha Hb E;
    cbn [String.append chars] in *.
  - now injection E as ->.
  - injection E as <- _. inversion Hb; subst. discriminate.
  - injection E as -> _. inversion Ha; subst. discriminate.
  - injection E as -> E. inversion Ha; inversion Hb; subst.
    destruct (IH b) as [-> ->]; auto.
Qed.

Lemma originalPage_id_injective rnd i j :
  id (originalPage rnd i) = id (originalPage rnd j) -> i = j.
Proof.
  cbn [id originalPage String.append]. intros E.
  injection E as E.
  apply digits_then_hyphen in E; try apply show_plain.
  destruct E as [E _]. apply show_injective in E. lia.
Qed.

Lemma blankPage_id_injective now i j :
  id (blankPage now i) = id (blankPage now j) -> i = j.
Proof.
  cbn [id blankPage String.append]. intros E.
  injection E as E.
  apply digits_then_hyphen in E; try apply show_plain.
  destruct E as [_ E]. apply show_injective in E. lia.
Qed.

Lemma NoDup_app_disjoint (A : Type) (l1 l2 : list A) (x : A) :
  NoDup (l1 ++ l2) -> In x l1 -> In x l2 -> False.
Proof.
  induction l1 as [|y l1 IH]; intros H H1 H2; [contradiction|].
  cbn [app] in H. inversion H as [|? ? Hy Hr]; subst.
  destruct H1 as [->|H1]; [|now apply IH].
  apply Hy, in_app_iff. now right.
Qed.

Lemma In_splice_insert (A : Type) (x : A) i items l :
  In x (JS.splice_insert i items l) <-> In x items \/ In x l.
Proof.
  unfold JS.splice_insert. rewrite !in_app_iff.
  assert (E : In x l <-> In x (firstn i l) \/ In x (skipn i l))
    by now rewrite <- in_app_iff, firstn_skipn.
  tauto.
Qed.

End Identifiers.

(** X15. The identifiers given by one load are distinct, whatever
    [Math.random] draws; so are the identifiers of the blanks of one
    insertion, whatever the clock reads. *)
Theorem fresh_identifiers_are_distinct (rnd : nat -> string) (now : nat -> N)
    (n : nat) :
  NoDup (map id (JS.array_from n (originalPage rnd))) /\
  NoDup (map id (JS.array_from n (blankPage now))) /\
  forall st, NoDup (map id (pages (handleFileChange (Some pdfFile) (Loaded n)
                                     rnd st))).
Proof.
  assert (G : forall (f : nat -> PageItem),
             (forall i j, id (f i) = id (f j) -> i = j) ->
             NoDup (map id (JS.array_from n f))).
  { intros f Hf. unfold JS.array_from. rewrite map_map.
    apply Finite.Injective_map_NoDup; [exact Hf|apply seq_NoDup]. }
  split; [apply G, originalPage_id_injective|].
  split; [apply G, blankPage_id_injective|].
  intros st. apply G, originalPage_id_injective.
Qed.

(** X16. Identifiers can repeat all the same: two insertions of at least one
    blank that do not fail and for which the clock reads the same give the
    first blank of each the same identifier. *)
Theorem repeated_insert_repeats_identifier (e : Engine) (now : nat -> N)
    (st : State) :
  insertFails e (insertConfig st) = false ->
  (1 <= count (insertConfig st))%Z ->
  ~ NoDup (map id (pages (handleInsertBlank e now
                            (handleInsertBlank e now st)))).
Proof.
  intros F Hc Hnd.
  assert (Hb : In (blankPage now 0)
                 (JS.array_from (Z.to_nat (count (insertConfig st)))
                    (blankPage now))).
  { unfold JS.array_from. apply in_map_iff. exists 0.
    split; [reflexivity|]. apply in_seq. lia. }
  assert (C : insertConfig (handleInsertBlank e now st) = insertConfig st).
  { now rewrite handleInsertBlank_ok. }
  rewrite (handleInsertBlank_inserts e now (handleInsertBlank e now st))
    in Hnd by now rewrite C.
  rewrite C in Hnd.
  unfold JS.splice_insert in Hnd.
  set (p1 := pages (handleInsertBlank e now st)) in *.
  set (i := insertTargetIdx (length p1) (insertConfig st)) in *.
  assert (H1 : In (blankPage now 0) p1).
  { unfold p1. rewrite handleInsertBlank_inserts by exact F.
    apply In_splice_insert. now left. }
  rewrite <- (firstn_skipn i p1) in H1. apply in_app_iff in H1.
  rewrite !map_app in Hnd.
  apply (in_map id) in Hb.
  destruct H1 as [H1|H1]; apply (in_map id) in H1.
  - rewrite app_assoc in Hnd. apply NoDup_app_remove_r in Hnd.
    exact (NoDup_app_disjoint _ _ _ _ Hnd H1 Hb).
  - apply NoDup_app_remove_l in Hnd.
    exact (NoDup_app_disjoint _ _ _ _ Hnd Hb H1).
Qed.

Lemma repeated_insert_repeats_identifier_witness :
  ~ NoDup (map id (pages (handleInsertBlank engine0 now0
                            (handleInsertBlank engine0 now0
                               (loadedState 2))))).
Proof.
  apply (repeated_insert_repeats_identifier engine0 now0 (loadedState 2)).
  - vm_compute. reflexivity.
  - vm_compute. discriminate.
Defined.

(** ** Where a dropped page lands *)

Section Landing.
Context {A : Type}.

Lemma splice_insert_lands (t : nat) (x : A) (r : list A) :
  t <= length r ->
  nth_error (JS.splice_insert t [x] r) t = Some x /\
  removeAt t (JS.splice_insert t [x] r) = r.
Proof.
  intros Ht. unfold JS.splice_insert. cbn [app].
  assert (L : length (firstn t r) = t) by (rewrite length_firstn; lia).
  split.
  - rewrite nth_error_app2 by lia. rewrite L, Nat.sub_diag. reflexivity.
  - rewrite <- L at 1. rewrite removeAt_middle. apply firstn_skipn.
Qed.

Lemma movePage_lands (d t : nat) (l : list A) :
  d < length l -> t < length l ->
  exists moved,
    movePage d t l = Some moved /\
    nth_error moved t = nth_error l d /\
    removeAt t moved = removeAt d l.
Proof.
  intros Hd Ht.
  destruct (movePage_in_bounds d t l Hd) as (l1 & x & l2 & -> & <- & E).
  eexists. split; [exact E|].
  rewrite length_app in Ht. cbn [length] in Ht.
  destruct (splice_insert_lands t x (l1 ++ l2)) as [N R];
    [rewrite length_app; lia|].
  rewrite N, R, removeAt_middle.
  rewrite nth_error_app2, Nat.sub_diag by lia. auto.
Qed.

End Landing.

(** X17. After a drop with both indices in bounds the dragged page is at the
    target index, and the other pages are in the order they had; the drag
    is over, and dropping a page on another one takes a snapshot. *)
Theorem drop_lands_at_target (dragged targetIndex : nat) (st : State) :
  draggedIndex st = Some dragged ->
  dragged < length (pages st) ->
  targetIndex < length (pages st) ->
  exists st',
    onDrop targetIndex st = Some st' /\
    nth_error (pages st') targetIndex = nth_error (pages st) dragged /\
    removeAt targetIndex (pages st') = removeAt dragged (pages st) /\
    (dragged <> targetIndex ->
     draggedIndex st' = None /\
     history st' = JS.slice_last 19 (history st) ++ [pages st]).
Proof.
  intros Hd Hlt Ht. unfold onDrop. rewrite Hd.
  destruct (Nat.eqb_spec dragged targetIndex) as [->|Hne].
  - exists st. repeat split; auto; congruence.
  - destruct (movePage_lands dragged targetIndex (pages st) Hlt Ht)
      as (moved & E & N & R).
    rewrite E. eexists. split; [reflexivity|].
    cbn [pages draggedIndex history setDraggedIndex saveToHistory setPages
         setHistory].
    auto.
Qed.

Lemma drop_lands_at_target_witness :
  exists st',
    onDrop 0 (onDragStart 2 (loadedState 3)) = Some st' /\
    nth_error (pages st') 0 = nth_error (pages (loadedState 3)) 2.
Proof.
  destruct (drop_lands_at_target 2 0 (onDragStart 2 (loadedState 3)) eq_refl
              ltac:(vm_compute; lia) ltac:(vm_compute; lia))
    as (st' & E & N & _).
  exists st'. split; [exact E|exact N].
Defined.

(** X18. A drop gives no page sequence exactly when a drag is recorded whose
    index is not the target and lies past the end of the pages (the first
    [splice] then removes nothing and the second one stores [undefined]);
    with no drag recorded, or on the dragged page itself, a drop changes
    nothing. *)
Theorem drop_fails_on_stale_drag (targetIndex : nat) (st : State) :
  (onDrop targetIndex st = None <->
   exists dragged,
     draggedIndex st = Some dragged /\ dragged <> targetIndex /\
     length (pages st) <= dragged) /\
  onDrop targetIndex (setDraggedIndex None st) = Some (setDraggedIndex None st)
  /\
  onDrop targetIndex (onDragStart targetIndex st)
  = Some (onDragStart targetIndex st).
Proof.
  split; [|split].
  - unfold onDrop. destruct (draggedIndex st) as [d|].
    + destruct (Nat.eqb_spec d targetIndex) as [->|Hne].
      * split; [discriminate|]. intros (d & [= <-] & H & _). congruence.
      * destruct (Nat.lt_ge_cases d (length (pages st))) as [H|H].
        -- destruct (movePage_in_bounds d targetIndex (pages st) H)
             as (l1 & x & l2 & _ & _ & E).
           rewrite E. split; [discriminate|].
           intros (d' & [= <-] & _ & H'). lia.
        -- rewrite movePage_out_of_bounds by exact H.
           split; [eauto|reflexivity].
    + split; [discriminate|]. now intros (d & [=] & _).
  - reflexivity.
  - unfold onDrop. cbn [draggedIndex onDragStart setDraggedIndex].
    now rewrite Nat.eqb_refl.
Qed.

(** ** A successful export *)

Section ExportRun.

Lemma progress_states_progress d reports : forall acc,
  map (fun s => progress (processState s))
    (fold_left (fun acc p => acc ++ [onProgress p (last acc d)]) reports acc)
  = map (fun s => progress (processState s)) acc ++ reports.
Proof.
  induction reports as [|p reports IH]; intros acc; cbn [fold_left].
  - now rewrite app_nil_r.
  - rewrite IH, map_app, <- app_assoc. reflexivity.
Qed.

Lemma last_of_nonempty (A : Type) (l : list A) (d d' : A) :
  l <> [] -> last l d = last l d'.
Proof.
  induction l as [|x l IH]; intros H; [contradiction|].
  destruct l as [|y l]; [reflexivity|]. apply IH. discriminate.
Qed.

Lemma progress_states_nonempty d reports acc :
  acc <> [] ->
  fold_left (fun acc p => acc ++ [onProgress p (last acc d)]) reports acc
  <> [].
Proof.
  intros H E. apply (f_equal (map (fun s => progress (processState s)))) in E.
  rewrite progress_states_progress in E. destruct acc; [contradiction|].
  discriminate.
Qed.

End ExportRun.

(** C9. When [processPdf] fails with [null] or [undefined] (a rejection
    without a reason), reading [err.message] throws inside the [catch]: no
    terminal state is set, and the export stays marked as processing, with
    no error message and no result, whatever progress was reported.  For a
    failure whose value has properties the export does end in the error
    state the claim describes. *)
Theorem nullish_rejection_leaves_export_running :
  forall reports : list Z,
  let st' := handleProcess reports RejectedNullish (loadedState 3) in
  isProcessing (processState st') = true /\
  error (processState st') = None /\
  resultUrl (processState st') = None /\
  processState (handleProcess reports (Rejected None) (loadedState 3)) =
    mkProcessingState false 0 (Some unknownErrorMessage) None.
Proof.
  intros reports. cbn zeta.
  assert (Q : isProcessing
                (processState
                   (handleProcess reports RejectedNullish (loadedState 3)))
              = true /\
              error (processState
                       (handleProcess reports RejectedNullish
                          (loadedState 3))) = None /\
              resultUrl (processState
                           (handleProcess reports RejectedNullish
                              (loadedState 3))) = None).
  { unfold handleProcess, handleProcessTrace.
    change (file (loadedState 3)) with (Some pdfFile). cbn iota.
    set (started := setProcessState _ (loadedState 3)).
    rewrite (last_of_nonempty _ _ (loadedState 3) started)
      by (apply progress_states_nonempty; discriminate).
    apply (last_Forall _ (fun s => isProcessing (processState s) = true /\
                                   error (processState s) = None /\
                                   resultUrl (processState s) = None)).
    - apply progress_states_Forall.
      + intros p s H. exact H.
      + now repeat split.
      + constructor; [now repeat split|constructor].
    - now repeat split. }
  destruct Q as (Q1 & Q2 & Q3).
  split; [exact Q1|]. split; [exact Q2|]. split; [exact Q3|].
  unfold handleProcess, handleProcessTrace.
  change (file (loadedState 3)) with (Some pdfFile). cbn iota.
  now rewrite last_last.
Qed.

(** X19. When [processPdf] succeeds the export ends in
    [{ isProcessing: false, progress: 100, error: null, resultUrl: url }].
    Until then the export is marked as processing and shows neither a result
    nor an error, whatever the state held before, and the progress shown
    is 0 and then each reported value in turn. *)
Theorem export_success_ends_with_url (reports : list Z) (url : string)
    (st : State) :
  file st <> None ->
  let trace := handleProcessTrace reports (Resolved url) st in
  processState (handleProcess reports (Resolved url) st) =
    mkProcessingState false 100 None (Some url) /\
  length trace = length reports + 2 /\
  map (fun s => progress (processState s)) (removelast trace) = 0%Z :: reports
  /\
  Forall (fun s => isProcessing (processState s) = true /\
                   resultUrl (processState s) = None /\
                   error (processState s) = None) (removelast trace).
Proof.
  intros Hfile. cbn zeta.
  assert (P : map (fun s => progress (processState s))
               (removelast (handleProcessTrace reports (Resolved url) st))
             = 0%Z :: reports).
  { unfold handleProcessTrace.
    destruct (file st) as [f|]; [|congruence].
    rewrite removelast_last, progress_states_progress. reflexivity. }
  split; [|split; [|split; [apply P|]]];
    unfold handleProcess, handleProcessTrace in *;
    (destruct (file st) as [f|]; [clear Hfile|congruence]).
  - now rewrite last_last.
  - rewrite removelast_last in P.
    apply (f_equal (@length Z)) in P. rewrite length_map in P.
    rewrite length_app, P. cbn [length]. lia.
  - rewrite removelast_last. apply progress_states_Forall.
    + intros p s H. exact H.
    + now repeat split.
    + constructor; [now repeat split|constructor].
Qed.

Lemma export_success_ends_with_url_witness :
  processState
    (handleProcess [50%Z] (Resolved "blob:1") (loadedState 2)) =
  mkProcessingState false 100 None (Some "blob:1").
Proof.
  exact (proj1 (export_success_ends_with_url [50%Z] "blob:1"
                  (loadedState 2) ltac:(discriminate))).
Defined.

(** X20. Whatever [processPdf] reports and comes to, an export changes the
    process state only: in every state it goes through, and in the one it
    leaves, the pages, the history and the file are those it started
    with, so an export can be neither undone nor lose an edit.  Without a
    loaded file it does nothing at all: the state stays as it is, a
    previous error or result included. *)
Theorem export_leaves_document (reports : list Z) (outcome : ProcessOutcome)
    (st : State) :
  let st' := handleProcess reports outcome st in
  pages st' = pages st /\ history st' = history st /\ file st' = file st /\
  pages (undo st') = pages (undo st) /\
  Forall (sameDocument st) (handleProcessTrace reports outcome st) /\
  (file st = None ->
   st' = st /\ handleProcessTrace reports outcome st = []).
Proof.
  cbn zeta.
  destruct (handleProcess_sameDocument reports outcome st) as (E1 & E2 & E3).
  split; [exact E1|]. split; [exact E2|]. split; [exact E3|].
  split; [|split; [apply handleProcessTrace_sameDocument|]].
  - unfold undo. rewrite E2.
    destruct (JS.last_elem (history st)); [reflexivity|exact E1].
  - intros H. unfold handleProcess, handleProcessTrace. now rewrite H.
Qed.

Lemma export_leaves_document_witness :
  handleProcess [] (Rejected None) initialState = initialState.
Proof.
  pose proof (export_leaves_document [] (Rejected None) initialState) as H.
  cbn zeta in H. destruct H as (_ & _ & _ & _ & _ & H).
  exact (proj1 (H eq_refl)).
Defined.

(** ** What the thumbnails show *)

(** X21. In every state the component reaches, a thumbnail shows B for a
    blank and the source page number, counted from 1, for any other page;
    the fallback X is never shown for a page.  A preview box that is given
    a page of the sequence or nothing shows X exactly when it is given
    nothing. *)
Theorem thumbnails_show_page_numbers (e : Engine) (events : list Event)
    (st : State) :
  run e events initialState = Some st ->
  Forall (fun p =>
            thumbnailText p <> "X" /\
            match type p with
            | blank => thumbnailText p = "B"
            | _ => exists i, originalPageIndex p = Some i /\
                             thumbnailText p = JS.show (N.of_nat (i + 1))
            end) (pages st) /\
  forall item,
    (item = None \/ exists p, item = Some p /\ In p (pages st)) ->
    (previewText item = "X" <-> item = None).
Proof.
  intros Hrun.
  assert (T : Forall (fun p =>
            thumbnailText p <> "X" /\
            match type p with
            | blank => thumbnailText p = "B"
            | _ => exists i, originalPageIndex p = Some i /\
                             thumbnailText p = JS.show (N.of_nat (i + 1))
            end) (pages st)).
  { assert (Hinit : stateBuilt initialState) by (split; constructor).
    destruct (stateBuilt_run e events initialState st Hinit Hrun) as [Hp _].
    eapply Forall_impl; [|exact Hp].
    intros [i t s o l]. unfold builtKind, thumbnailText. cbn.
    destruct t, s, o as [n|]; try discriminate; intros _.
    - split; [|eauto]. intros E.
      pose proof (show_plain (N.of_nat (n + 1))) as D.
      rewrite E in D. inversion D; subst. discriminate.
    - split; [discriminate|reflexivity]. }
  split; [exact T|].
  intros item [->|(p & -> & Hp)]; [split; reflexivity|].
  rewrite Forall_forall in T. destruct (T p Hp) as [N _].
  cbn [previewText]. split; [contradiction|discriminate].
Qed.

Lemma thumbnails_show_page_numbers_witness :
  Forall (fun p => thumbnailText p <> "X")
    (pages (handleInsertBlank engine0 now0 (loadedState 2))).
Proof.
  eapply Forall_impl;
    [|exact (proj1 (thumbnails_show_page_numbers engine0
                      [FileChange (Some pdfFile) (Loaded 2) rnd0;
                       InsertBlank now0]
                      (handleInsertBlank engine0 now0 (loadedState 2))
                      eq_refl))].
  intros p H. exact (proj1 H).
Defined.

(** ** The tabs *)

Section Tabs.

Lemma modeEffect_settled v :
  impositionEnabled (modeEffect v) = impositionEnabled v /\
  (impositionEnabled (modeEffect v) = false ->
   activeMode (modeEffect v) <> IMPOSITION).
Proof.
  unfold modeEffect. destruct v as [[] []]; cbn; split; congruence.
Qed.

Lemma runView_snoc events ev v :
  runView (events ++ [ev]) v = viewStep ev (runView events v).
Proof. unfold runView. now rewrite fold_left_app. Qed.

End Tabs.

(** X22. Whatever tabs are clicked and however often imposition is switched on
    and off, the active mode is one of the tabs that are rendered: with
    imposition off there are two tabs, Organize and "2. Export", and the
    Duplex mode is never active; with imposition on there are three. *)
Theorem active_mode_is_a_rendered_tab (events : list ViewEvent) :
  let v := runView events initialView in
  In (activeMode v) (map fst (tabs v)) /\
  map fst (tabs v) =
    (if impositionEnabled v then [ORGANIZER; IMPOSITION; EXPORT]
     else [ORGANIZER; EXPORT]) /\
  map snd (tabs v) =
    (if impositionEnabled v
     then ["1. Organize"; "2. Duplex Mode"; "3. Export"]
     else ["1. Organize"; "2. Export"]).
Proof.
  cbn zeta.
  assert (I : impositionEnabled (runView events initialView) = false ->
              activeMode (runView events initialView) <> IMPOSITION).
  { destruct events as [|ev events] using rev_ind; [discriminate|].
    rewrite runView_snoc. unfold viewStep. apply modeEffect_settled. }
  destruct (runView events initialView) as [m e]. cbn in *.
  destruct e, m; cbn; repeat split; auto.
  now specialize (I eq_refl).
Qed.

(** ** The insert form *)

(** X23. In every state the component reaches, neither the count nor the
    target page of the insert form is 0: the inputs replace 0 and texts
    that are no number by 1.  So an insertion leaves the sequence as long
    as it was exactly when the count is negative or the insertion fails. *)
Theorem insert_form_never_holds_zero (e : Engine) (events : list Event)
    (st : State) :
  run e events initialState = Some st ->
  count (insertConfig st) <> 0%Z /\
  target (insertConfig st) <> 0%Z /\
  forall now,
    (length (pages (handleInsertBlank e now st)) = length (pages st) <->
     (count (insertConfig st) < 0)%Z \/
     insertFails e (insertConfig st) = true).
Proof.
  assert (P : forall value, parseIntOr1 value <> 0%Z).
  { intros value. unfold parseIntOr1.
    destruct (JS.parseInt value) as [n|]; [|discriminate].
    destruct (Z.eqb_spec n 0); [discriminate|assumption]. }
  assert (S1 : forall ev s s',
             count (insertConfig s) <> 0%Z /\ target (insertConfig s) <> 0%Z ->
             step e ev s = Some s' ->
             count (insertConfig s') <> 0%Z /\
             target (insertConfig s') <> 0%Z).
  { intros ev s s' H. destruct ev; cbn [step]; try (intros [= <-]);
      try exact H.
    - unfold handleFileChange. destruct selected as [f|]; [|exact H].
      destruct (mimeType f =? "application/pdf")%string; [|exact H].
      destruct outcome; exact H.
    - unfold undo. destruct (JS.last_elem (history s)); exact H.
    - unfold handleBulkDelete.
      destruct (parseDeleteRanges _ _ _) as [[|i toDelete]|];
        [now intros [= <-]|now intros [= <-]|discriminate].
    - cbn. split; [apply P|apply H].
    - cbn. split; [apply H|apply P].
    - unfold handleInsertBlank.
      destruct (insertFails e (insertConfig s)); exact H.
    - unfold handleProcess.
      assert (G : Forall (fun x => insertConfig x = insertConfig s)
                    (handleProcessTrace reports outcome s)).
      { unfold handleProcessTrace. destruct (file s); [|constructor].
        set (started := setProcessState _ s).
        assert (Hr : Forall (fun x => insertConfig x = insertConfig s)
                       (fold_left
                          (fun acc p =>
                             acc ++ [onProgress p (last acc started)])
                          reports [started])).
        { apply progress_states_Forall; [|reflexivity|now constructor].
          intros p x Hx. exact Hx. }
        pose proof (last_Forall _ _ _ started Hr eq_refl) as L.
        destruct outcome; [| |exact Hr];
          (apply Forall_app; split; [exact Hr|]);
          (constructor; [exact L|constructor]). }
      pose proof (last_Forall _ _ _ s G eq_refl) as E. cbn beta in E.
      now rewrite E.
    - unfold onDrop. destruct (draggedIndex s) as [d|]; [|now intros [= <-]].
      destruct (d =? targetIndex); [now intros [= <-]|].
      destruct (movePage d targetIndex (pages s)) as [l|];
        [intros [= <-]; exact H|discriminate]. }
  assert (G : forall evs s s',
             count (insertConfig s) <> 0%Z /\ target (insertConfig s) <> 0%Z ->
             run e evs s = Some s' ->
             count (insertConfig s') <> 0%Z /\
             target (insertConfig s') <> 0%Z).
  { induction evs as [|ev evs IH]; intros s s' H; cbn [run].
    - now intros [= <-].
    - destruct (step e ev s) as [s1|] eqn:E; [|discriminate].
      apply IH. exact (S1 ev s s1 H E). }
  intros Hrun.
  destruct (G events initialState st ltac:(split; discriminate) Hrun)
    as [Hc Ht].
  split; [exact Hc|]. split; [exact Ht|].
  intros now. destruct (insertFails e (insertConfig st)) eqn:F.
  - rewrite handleInsertBlank_fails by exact F. split; auto.
  - rewrite handleInsertBlank_length, (to_length_when_ok e) by exact F.
    split; [intros H; left; lia|]. intros [H|H]; [lia|discriminate].
Qed.

Lemma insert_form_never_holds_zero_witness :
  count (insertConfig (onCountChange "0" (loadedState 1))) <> 0%Z.
Proof.
  exact (proj1 (insert_form_never_holds_zero engine0
                  [FileChange (Some pdfFile) (Loaded 1) rnd0; CountChange "0"]
                  (onCountChange "0" (loadedState 1)) eq_refl)).
Defined.
